(** * A typed dataset model with lazy foreign-key joins

    Shallow embedding of [src/dataset.py] (class [DataSet]) and proofs about
    construction, filtering, relation declaration and the read path.

    Python objects that the program shares and mutates (record dicts, the
    relation list of a dataset, the datasets themselves) live in an explicit
    store; methods are computations over that store that either return or
    raise. *)

From Stdlib Require Import ZArith String List Bool Lia.
From Stdlib Require Import Floats.SpecFloat.
From stdpp Require Import base option list sorting strings gmap.

Set Warnings "-register-all".

Open Scope Z_scope.
Open Scope string_scope.
Open Scope list_scope.

(** ** Plain values: what the loader delivers *)

(** A value parsed from JSON or passed by a caller, held by value.  Floats
    are binary floats [(-1)^s * m * 2^e], with zeros, infinities and NaN.

    Python compares the elements of a list or dict by identity ([is]) before
    it compares them by [==].  That shows on one kind of object only, a NaN,
    which is unequal to itself; so a NaN comes with the identity of its
    float object.  [JFloat S754_nan] is the object that the JSON decoder
    returns for every [NaN] literal (the module constant
    [json.decoder.NaN]); [JNaN o] is any other NaN object, told apart by its
    number [o] (one made by [float("nan")], say). *)
Inductive json : Type :=
| JNone
| JBool (b : bool)
| JInt (z : Z)
| JFloat (f : spec_float)
| JNaN (o : nat)
| JStr (s : string)
| JList (xs : list json)
| JDict (items : list (string * json)).

(** The result of Python's [type(x)] on the values that occur. *)
Inductive pytype : Type :=
| NoneType | bool_t | int_t | float_t | str_t | list_t | dict_t | defaultdict_t.

#[global] Instance pytype_eq_dec : EqDecision pytype.
Proof. solve_decision. Defined.

Definition type_of_json (j : json) : pytype :=
  match j with
  | JNone => NoneType
  | JBool _ => bool_t
  | JInt _ => int_t
  | JFloat _ => float_t
  | JNaN _ => float_t
  | JStr _ => str_t
  | JList _ => list_t
  | JDict _ => dict_t
  end.

(** *** Python's [==] on plain values

    Numbers compare by mathematical value across [bool], [int] and [float]
    ([True == 1], [1 == 1.0]); a NaN equals nothing, not even itself;
    strings compare by content, and values of unrelated types are unequal.
    Lists and dicts compare element by element, and there an element that
    is the same object on both sides counts as equal without being
    compared ([PyObject_RichCompareBool]): [[nan] == [nan]] holds when both
    lists hold the same NaN object. *)

Inductive numval : Type :=
| Dyadic (n e : Z)        (* n * 2^e *)
| Infinite (neg : bool)
| NotANumber.

Definition numeric (j : json) : option numval :=
  match j with
  | JBool b => Some (Dyadic (Z.b2z b) 0)
  | JInt z => Some (Dyadic z 0)
  | JFloat (S754_zero _) => Some (Dyadic 0 0)
  | JFloat (S754_infinity s) => Some (Infinite s)
  | JFloat S754_nan => Some NotANumber
  | JNaN _ => Some NotANumber
  | JFloat (S754_finite s m e) =>
      Some (Dyadic (if s then Z.neg m else Z.pos m) e)
  | _ => None
  end.

Definition num_eq (a b : numval) : bool :=
  match a, b with
  | Dyadic n1 e1, Dyadic n2 e2 =>
      let e := Z.min e1 e2 in
      (n1 * 2 ^ (e1 - e) =? n2 * 2 ^ (e2 - e))%Z
  | Infinite s1, Infinite s2 => Bool.eqb s1 s2
  | _, _ => false
  end.

Definition dict_get {V : Type} (d : list (string * V)) (k : string) : option V :=
  snd <$> find (fun kv => String.eqb (fst kv) k) d.

(** [a is b], where it decides a comparison: two NaNs that are one object.
    (For any other value, being the same object implies being equal.) *)
Definition same_nan (a b : json) : bool :=
  match a, b with
  | JFloat S754_nan, JFloat S754_nan => true
  | JNaN o1, JNaN o2 => (o1 =? o2)%nat
  | _, _ => false
  end.

Fixpoint py_eq (a b : json) {struct a} : bool :=
  match a, b with
  | JNone, JNone => true
  | JStr s, JStr t => String.eqb s t
  | JList xs, JList ys =>
      (fix all_eq (xs ys : list json) {struct xs} : bool :=
         match xs, ys with
         | [], [] => true
         | x :: xs', y :: ys' => (same_nan x y || py_eq x y) && all_eq xs' ys'
         | _, _ => false
         end) xs ys
  | JDict d1, JDict d2 =>
      (length d1 =? length d2)%nat &&
      (fix all_in (d : list (string * json)) {struct d} : bool :=
         match d with
         | [] => true
         | (k, v) :: d' =>
             match dict_get d2 k with
             | Some w => same_nan v w || py_eq v w
             | None => false
             end && all_in d'
         end) d1
  | _, _ =>
      match numeric a, numeric b with
      | Some x, Some y => num_eq x y
      | _, _ => false
      end
  end.

(** the comparison of two elements: [a is b or a == b] *)
Definition is_or_eq (a b : json) : bool := same_nan a b || py_eq a b.

(** ** Records and the store *)

Definition loc := nat.

(** A value stored under a key of a record: plain data, or the mapping that
    the join resolver attaches, from the name of a related dataset to the
    (references to the) matched records. *)
Inductive pyval : Type :=
| Plain (j : json)
| Foreign (groups : list (string * list loc)).

(** A record is a Python dict: keys in insertion order, no key twice. *)
Definition record := list (string * pyval).

Definition type_of (v : pyval) : pytype :=
  match v with
  | Plain j => type_of_json j
  | Foreign _ => defaultdict_t
  end.

(** [record.get(k)]: an absent key reads as [None]. *)
Definition get (r : record) (k : string) : pyval :=
  default (Plain JNone) (dict_get r k).

Definition keys {V : Type} (d : list (string * V)) : list string := map fst d.

(** [k in record.keys()] *)
Definition has_key {V : Type} (d : list (string * V)) (k : string) : bool :=
  existsb (String.eqb k) (keys d).

(** [d[k] = v] *)
Fixpoint dict_set {V : Type} (d : list (string * V)) (k : string) (v : V)
  : list (string * V) :=
  match d with
  | [] => [(k, v)]
  | (k', v') :: d' =>
      if String.eqb k' k then (k, v) :: d' else (k', v') :: dict_set d' k v
  end.

(** [==] between two stored values.  A resolver-built mapping is unequal to
    plain data (only a dict could equal it, and no validated record holds a
    dict), and two resolver-built mappings are equal when they list the same
    record objects under the same names; the program compares two of them
    only if the reserved field itself is used as a join or filter field. *)
Definition value_eq (a b : pyval) : bool :=
  match a, b with
  | Plain x, Plain y => py_eq x y
  | Foreign g1, Foreign g2 =>
      (length g1 =? length g2)%nat &&
      forallb (fun kv => match dict_get g2 (fst kv) with
                         | Some ls => bool_decide (snd kv = ls)
                         | None => false
                         end) g1
  | _, _ => false
  end.

(** [DataSetRelation = namedtuple(..., ["foreign_data_set", "field",
    "foreign_field"])]; the foreign dataset is a shared reference. *)
Record DataSetRelation : Type := mkRelation {
  foreign_data_set : loc;
  field : string;
  foreign_field : string
}.

(** The attributes of a [DataSet] object.  [_data] lists references to the
    record objects; [_dataset_relations] is a reference to a list object. *)
Record DataSet : Type := mkDataSet {
  name : string;
  _data : list loc;
  fields : list string;
  field_type_mapping : gmap string pytype;
  list_field_type_mapping : gmap string pytype;
  _dataset_relations : loc
}.

Record heap : Type := mkHeap {
  records : list record;
  relation_lists : list (list DataSetRelation);
  datasets : list DataSet
}.

Definition no_dataset : DataSet :=
  mkDataSet "" [] [] ∅ ∅ 0%nat.

Definition record_at (h : heap) (l : loc) : record :=
  default [] (records h !! l).
Definition relations_at (h : heap) (l : loc) : list DataSetRelation :=
  default [] (relation_lists h !! l).
Definition dataset_at (h : heap) (l : loc) : DataSet :=
  default no_dataset (datasets h !! l).

(** ** Computations that return or raise *)

Inductive exn : Type :=
| DataLoadException
| DataSetException
| KeyError
| TypeError
| AttributeError.

Definition M (A : Type) : Type := heap -> (exn + A) * heap.

Definition ret {A} (a : A) : M A := fun h => (inr a, h).
Definition raise {A} (e : exn) : M A := fun h => (inl e, h).
Definition bind {A B} (m : M A) (k : A -> M B) : M B :=
  fun h => match m h with
           | (inr a, h') => k a h'
           | (inl e, h') => (inl e, h')
           end.
(** a computation that only reads the store *)
Definition reading {A} (f : heap -> exn + A) : M A := fun h => (f h, h).
Definition modify (f : heap -> heap) : M unit := fun h => (inr tt, f h).

Notation "'let*' x ':=' m 'in' k" := (bind m (fun x => k))
  (at level 10, x pattern, m at level 100, k at level 200).

(** ** Construction: [DataSet.__init__] *)

(** An object handed to the constructor: a mapping (a record object of the
    store), a list object, or an object that is neither: [None], a number
    or a string. *)
Inductive pyobj : Type :=
| ORecord (l : loc)
| OList (elems : list pyobj)
| ONone
| OBool (b : bool)
| OInt (z : Z)
| OFloat (f : spec_float)
| OStr (s : string).

Definition string_le (s t : string) : Prop := String.leb s t = true.

#[global] Instance string_le_dec : RelDecision string_le.
Proof. intros s t. unfold string_le. apply _. Defined.

#[global] Instance string_le_total : Total string_le.
Proof. intros s t. apply String.leb_total. Qed.

(** [sorted(fields)] on a set of strings *)
Definition sorted (ks : list string) : list string :=
  merge_sort string_le (remove_dups ks).

(** the loop [for record in self._data: fields.update(record.keys())] *)
Fixpoint collect_keys (h : heap) (elems : list pyobj) : exn + list string :=
  match elems with
  | [] => inr []
  | ORecord l :: rest =>
      match collect_keys h rest with
      | inr ks => inr (keys (record_at h l) ++ ks)
      | inl e => inl e
      end
  | _ :: _ => inl AttributeError
  end.

Definition _get_data_fields (h : heap) (data : list pyobj) : exn + list string :=
  match collect_keys h data with
  | inr ks => inr (sorted ks)
  | inl e => inl e
  end.

Definition record_refs (elems : list pyobj) : list loc :=
  omap (fun o => match o with ORecord l => Some l | _ => None end) elems.

(** the set [{type(record.get(field)) for record in self._data
              if type(record.get(field)) != type(None)}] *)
Definition value_types (h : heap) (data : list loc) (field : string)
  : list pytype :=
  remove_dups
    (filter (fun t => t <> NoneType)
            (map (fun l => type_of (get (record_at h l) field)) data)).

(** [[type(entry) for entry in x]] *)
Definition entry_types (x : pyval) : exn + list pytype :=
  match x with
  | Plain (JList xs) => inr (map type_of_json xs)
  | Plain (JStr s) => inr (repeat str_t (String.length s))
  | Plain (JDict d) => inr (map (fun _ => str_t) d)
  | Foreign g => inr (map (fun _ => str_t) g)
  | Plain _ => inl TypeError
  end.

(** the loop that fills [types_in_list]; [record[field]] raises on an
    absent key *)
Fixpoint types_in_list (h : heap) (data : list loc) (field : string)
  : exn + list pytype :=
  match data with
  | [] => inr []
  | l :: rest =>
      match dict_get (record_at h l) field with
      | None => inl KeyError
      | Some x =>
          match entry_types x with
          | inl e => inl e
          | inr ts =>
              match types_in_list h rest field with
              | inl e => inl e
              | inr ts' => inr (ts ++ ts')
              end
          end
      end
  end.

(** one turn of the loop of [_validate_data_types]: the type of the field
    and, for a list field, the type of its elements *)
Definition validate_field (h : heap) (data : list loc) (field : string)
  : exn + pytype * option pytype :=
  let vts := value_types h data field in
  if (1 <? length vts)%nat then inl DataLoadException
  else
    match vts with
    | [] => inl DataLoadException
    | field_data_type :: _ =>
        if bool_decide (field_data_type = dict_t) then inl DataLoadException
        else if bool_decide (field_data_type = list_t) then
          match types_in_list h data field with
          | inl e => inl e
          | inr ts =>
              match remove_dups ts with
              | [et] => inr (field_data_type, Some et)
              | _ => inl DataLoadException
              end
          end
        else inr (field_data_type, None)
    end.

Fixpoint validate_loop (h : heap) (data : list loc) (fs : list string)
    (field_mapping list_field_mapping : gmap string pytype)
  : exn + gmap string pytype * gmap string pytype :=
  match fs with
  | [] => inr (field_mapping, list_field_mapping)
  | f :: fs' =>
      match validate_field h data f with
      | inl e => inl e
      | inr (t, et) =>
          validate_loop h data fs' (<[f := t]> field_mapping)
            (match et with
             | Some e => <[f := e]> list_field_mapping
             | None => list_field_mapping
             end)
      end
  end.

Definition _validate_data_types (h : heap) (data : list loc)
    (fields : list string)
  : exn + gmap string pytype * gmap string pytype :=
  validate_loop h data fields ∅ ∅.

Definition new_relation_list : M loc :=
  fun h => (inr (length (relation_lists h)),
            mkHeap (records h) (relation_lists h ++ [[]]) (datasets h)).

Definition new_dataset (d : DataSet) : M loc :=
  fun h => (inr (length (datasets h)),
            mkHeap (records h) (relation_lists h) (datasets h ++ [d])).

(** [json_path] stands for the parsed content of the file at a (non-empty)
    path; [None] is an argument left out or passed as [None]. *)
Definition __init__ (name : string) (json_path _parsed_data : option pyobj)
  : M loc :=
  let parsed_given :=
    match _parsed_data with
    | None | Some ONone => false
    | Some _ => true
    end in
  match json_path, parsed_given with
  | Some _, true => raise DataLoadException
  | None, false => raise DataLoadException
  | _, _ =>
      let data :=
        match json_path with
        | Some d => d
        | None => default ONone _parsed_data
        end in
      match data with
      | OList elems =>
          let* fields := reading (fun h => _get_data_fields h elems) in
          if bool_decide (is_Some json_path)
             && existsb (String.eqb "_foreign_fields") fields
          then raise DataLoadException
          else
            let* mappings :=
              reading (fun h =>
                         _validate_data_types h (record_refs elems) fields) in
            let* relations := new_relation_list in
            new_dataset
              (mkDataSet name (record_refs elems) fields
                         (fst mappings) (snd mappings) relations)
      | _ => raise DataLoadException
      end
  end.

(** ** Filtering: [DataSet.filter_by_value] *)

(** [v in d] for a dict [d]: a lookup by key, which hashes [v] first *)
Definition key_in {V : Type} (v : json) (d : list (string * V)) : exn + bool :=
  match v with
  | JStr k => inr (has_key d k)
  | JList _ | JDict _ => inl TypeError
  | _ => inr false
  end.

(** [t in s] for strings *)
Definition is_substring (t s : string) : bool :=
  match String.index 0 t s with
  | Some _ => true
  | None => false
  end.

(** [v in x]; the members of a list are compared with [v] as elements
    are, by identity first *)
Definition py_in (v : json) (x : pyval) : exn + bool :=
  match x with
  | Plain (JList xs) => inr (existsb (fun e => is_or_eq e v) xs)
  | Plain (JStr s) =>
      match v with
      | JStr t => inr (is_substring t s)
      | _ => inl TypeError
      end
  | Plain (JDict d) => key_in v d
  | Foreign g => key_in v g
  | Plain _ => inl TypeError
  end.

(** [[record for record in self._data if value in record.get(field, [])]] *)
Fixpoint select_containing (h : heap) (field : string) (v : json)
    (data : list loc) : exn + list loc :=
  match data with
  | [] => inr []
  | l :: rest =>
      match py_in v (default (Plain (JList []))
                             (dict_get (record_at h l) field)) with
      | inl e => inl e
      | inr b =>
          match select_containing h field v rest with
          | inl e => inl e
          | inr ls => inr (if b then l :: ls else ls)
          end
      end
  end.

(** [[record for record in self._data if record.get(field) == value]] *)
Definition select_equal (h : heap) (field : string) (v : json)
    (data : list loc) : list loc :=
  filter (fun l => value_eq (get (record_at h l) field) (Plain v) = true) data.

Definition is_none (j : json) : bool :=
  match j with JNone => true | _ => false end.

(** [d._dataset_relations = rl] *)
Definition set_dataset_relations (d : loc) (rl : loc) : M unit :=
  modify (fun h =>
    let ds := dataset_at h d in
    mkHeap (records h) (relation_lists h)
      (<[d := mkDataSet (name ds) (_data ds) (fields ds)
                        (field_type_mapping ds) (list_field_type_mapping ds)
                        rl]> (datasets h))).

Definition filter_by_value (self : loc) (field : string) (value : json)
  : M loc :=
  let* ds := reading (fun h => inr (dataset_at h self)) in
  match field_type_mapping ds !! field with
  | None => raise KeyError
  | Some field_data_type =>
      if bool_decide (field_data_type <> list_t)
         && negb (is_none value)
         && bool_decide (type_of_json value <> field_data_type)
      then raise DataSetException
      else
        let* subset :=
          if bool_decide (field_data_type = list_t)
          then reading (fun h => select_containing h field value (_data ds))
          else reading (fun h => inr (select_equal h field value (_data ds))) in
        let* new_data_set :=
          __init__ (name ds) None (Some (OList (map ORecord subset))) in
        let* _ := set_dataset_relations new_data_set (_dataset_relations ds) in
        ret new_data_set
  end.

(** ** Relations: [DataSet.relate_dataset] *)

Definition append_relation (rl : loc) (r : DataSetRelation) : M unit :=
  modify (fun h =>
    mkHeap (records h)
           (<[rl := relations_at h rl ++ [r]]> (relation_lists h))
           (datasets h)).

Definition relate_dataset (self other_dataset : loc)
    (field foreign_field : string) : M unit :=
  let* ds := reading (fun h => inr (dataset_at h self)) in
  let* taken :=
    reading (fun h =>
      inr (existsb
             (fun relation =>
                String.eqb (name (dataset_at h (foreign_data_set relation)))
                           (name (dataset_at h other_dataset)))
             (relations_at h (_dataset_relations ds)))) in
  if taken : bool then raise DataSetException
  else append_relation (_dataset_relations ds)
                       (mkRelation other_dataset field foreign_field).

(** ** The read path: [DataSet.data] and the join resolver *)

(** the comprehension that scans the foreign dataset's raw records *)
Definition foreign_matches (h : heap) (r : record) (relation : DataSetRelation)
  : list loc :=
  filter (fun t => value_eq (get r (field relation))
                            (get (record_at h t) (foreign_field relation))
                   = true)
         (_data (dataset_at h (foreign_data_set relation))).

(** [foreign_fields[name].extend(rs)] on a [defaultdict(list)] *)
Definition extend (foreign_fields : list (string * list loc)) (nm : string)
    (rs : list loc) : list (string * list loc) :=
  dict_set foreign_fields nm (default [] (dict_get foreign_fields nm) ++ rs).

(** the body of the loop over the relations; the state is the mapping built
    so far and the variable [foreign_records], which the loop leaves set to
    the matches of the relation it visited last *)
Definition resolve_step (h : heap) (r : record)
    (st : list (string * list loc) * list loc) (relation : DataSetRelation)
  : list (string * list loc) * list loc :=
  let foreign_records := foreign_matches h r relation in
  (match foreign_records with
   | [] => fst st
   | _ :: _ =>
       extend (fst st) (name (dataset_at h (foreign_data_set relation)))
              foreign_records
   end,
   foreign_records).

Definition resolve (h : heap) (r : record) (rels : list DataSetRelation)
  : list (string * list loc) * list loc :=
  fold_left (resolve_step h r) rels ([], []).

Definition set_record (l : loc) (r : record) : M unit :=
  modify (fun h =>
    mkHeap (<[l := r]> (records h)) (relation_lists h) (datasets h)).

Definition _update_record_with_foreign_data (self : loc) (record : loc)
  : M loc :=
  let* r := reading (fun h => inr (record_at h record)) in
  let* rels :=
    reading (fun h =>
      inr (relations_at h (_dataset_relations (dataset_at h self)))) in
  if has_key r "_foreign_fields"
     || match rels with [] => true | _ => false end
  then ret record
  else
    let* res := reading (fun h => inr (resolve h r rels)) in
    match snd res with
    | [] => ret record
    | _ :: _ =>
        let* _ := set_record record
                    (dict_set r "_foreign_fields" (Foreign (fst res))) in
        ret record
    end.

Fixpoint for_each {A B} (f : A -> M B) (xs : list A) : M (list B) :=
  match xs with
  | [] => ret []
  | x :: xs' =>
      let* y := f x in
      let* ys := for_each f xs' in
      ret (y :: ys)
  end.

(** the property [data] *)
Definition data (self : loc) : M (list loc) :=
  let* ds := reading (fun h => inr (dataset_at h self)) in
  for_each (_update_record_with_foreign_data self) (_data ds).

Definition __len__ (h : heap) (self : loc) : nat :=
  length (_data (dataset_at h self)).


(** ** The command-line client: [src/cli_client.py] *)

Module CLIClient.

(** The attributes of a [CLIClient]: the datasets it was given, by
    reference, and the dict from their names to them. *)
Record t : Type := mk {
  data_sets : list loc;
  data_set_name_mapping : gmap string loc
}.

(** [{data_set.name: data_set for data_set in self.data_sets}]: the entries
    are put into the dict one after the other *)
Definition name_mapping (h : heap) (dss : list loc) : gmap string loc :=
  fold_left (fun m data_set => <[name (dataset_at h data_set) := data_set]> m)
            dss ∅.

Definition __init__ (h : heap) (data_sets : list loc) : t :=
  mk data_sets (name_mapping h data_sets).

End CLIClient.
(** ** Concrete scenarios

    The datasets of the test suite, laid out in a store. *)

(** [{"name": "Larry"}, {"name": "David"}, {"name": "Rachel"}] *)
Definition people_records : list record :=
  [ [("name", Plain (JStr "Larry"))];
    [("name", Plain (JStr "David"))];
    [("name", Plain (JStr "Rachel"))] ].

(** the store after [DataSet("People", _parsed_data=...)]; the dataset is
    object 0 *)
Definition people_heap : heap :=
  snd (__init__ "People" None (Some (OList (map ORecord [0; 1; 2]%nat)))
         (mkHeap people_records [] [])).

(** users and positions, as in the test of relations: records 0-3 are the
    users, 4-5 the positions *)
Definition staff_records : list record :=
  [ [("name", Plain (JStr "Larry")); ("position_id", Plain (JInt 1))];
    [("name", Plain (JStr "David")); ("position_id", Plain (JInt 2))];
    [("name", Plain (JStr "Rachel")); ("position_id", Plain (JInt 2))];
    [("name", Plain (JStr "Heather"))];
    [("id", Plain (JInt 1)); ("title", Plain (JStr "Programmer"))];
    [("id", Plain (JInt 2)); ("title", Plain (JStr "Engineer"))] ].

(** three datasets: "Users" (object 0), "Positions" (object 1) and a second,
    distinct dataset also named "Positions" (object 2) *)
Definition staff_setup : M unit :=
  let* _ := __init__ "Users" None
              (Some (OList (map ORecord [0; 1; 2; 3]%nat))) in
  let* _ := __init__ "Positions" None
              (Some (OList (map ORecord [4; 5]%nat))) in
  let* _ := __init__ "Positions" None
              (Some (OList (map ORecord [4; 5]%nat))) in
  ret tt.

Definition staff_heap : heap := snd (staff_setup (mkHeap staff_records [] [])).

(** ... after [user_dataset.relate_dataset(position_dataset, "position_id",
    "id")] *)
Definition staff_related_heap : heap :=
  snd (relate_dataset 0%nat 1%nat "position_id" "id" staff_heap).

(** ** Auxiliary notions used in the statements *)

(** all keys of the records [ls], in order *)
Definition all_keys (h : heap) (ls : list loc) : list string :=
  concat (map (fun l => keys (record_at h l)) ls).

(** the dataset object that the constructor builds *)
Definition built_dataset (h : heap) (nm : string) (ls : list loc)
    (m : gmap string pytype * gmap string pytype) : DataSet :=
  mkDataSet nm ls (sorted (all_keys h ls)) (fst m) (snd m)
            (length (relation_lists h)).

(** what the read path may do to the store: nothing but attach the reserved
    field, at the end of records that do not have it yet *)
Definition only_attaches (h h' : heap) : Prop :=
  datasets h' = datasets h /\
  relation_lists h' = relation_lists h /\
  length (records h') = length (records h) /\
  forall l : loc,
    record_at h' l = record_at h l \/
    (has_key (record_at h l) "_foreign_fields" = false /\
     exists g, record_at h' l
               = record_at h l ++ [("_foreign_fields", Foreign g)]).

(** the entry for a dataset name in the side-channel of a record *)
Definition foreign_entry (r : record) (nm : string) : option (list loc) :=
  match dict_get r "_foreign_fields" with
  | Some (Foreign g) => dict_get g nm
  | _ => None
  end.

(** the name under which a relation files its matches *)
Definition target_name (h : heap) (relation : DataSetRelation) : string :=
  name (dataset_at h (foreign_data_set relation)).

(** Equality as the specification words it: the same type and the same
    value, and a field that is missing matches nothing. *)
Definition spec_exact_eq (a b : option pyval) : bool :=
  match a, b with
  | Some (Plain x), Some (Plain y) =>
      bool_decide (type_of_json x = type_of_json y) && py_eq x y
  | _, _ => false
  end.

(** The join as the specification words it: after reading record [l] of
    [self], the entry under the target's name lists exactly the target's
    records that are equal in the sense above, in the target's order (no
    entry standing for no such record). *)
Definition join_as_specified (h : heap) (self l : loc)
    (relation : DataSetRelation) : Prop :=
  let h' := snd (_update_record_with_foreign_data self l h) in
  default [] (foreign_entry (record_at h' l) (target_name h relation))
  = filter (fun t => spec_exact_eq
                       (dict_get (record_at h l) (field relation))
                       (dict_get (record_at h t) (foreign_field relation))
                     = true)
           (_data (dataset_at h (foreign_data_set relation))).

(** a user whose [position_id] is the integer 1, and a position whose [id]
    is the float 1.0 *)
Definition mixed_records : list record :=
  [ [("name", Plain (JStr "Larry")); ("position_id", Plain (JInt 1))];
    [("id", Plain (JFloat (S754_finite false 1 0)));
     ("title", Plain (JStr "Programmer"))] ].

Definition mixed_setup : M unit :=
  let* u := __init__ "Users" None (Some (OList [ORecord 0%nat])) in
  let* p := __init__ "Positions" None (Some (OList [ORecord 1%nat])) in
  relate_dataset u p "position_id" "id".

Definition mixed_heap : heap := snd (mixed_setup (mkHeap mixed_records [] [])).

(** two records whose key is the array [[NaN]], as two JSON files give
    them: the decoder puts its one NaN object into both lists *)
Definition nan_records : list record :=
  [ [("key", Plain (JList [JFloat S754_nan]))];
    [("key", Plain (JList [JFloat S754_nan])); ("label", Plain (JStr "b"))] ].

Definition nan_setup : M unit :=
  let* a := __init__ "A" (Some (OList [ORecord 0%nat])) None in
  let* b := __init__ "B" (Some (OList [ORecord 1%nat])) None in
  relate_dataset a b "key" "key".

Definition nan_heap : heap := snd (nan_setup (mkHeap nan_records [] [])).

(** a user with a position and a team; there is a position 1 but no team 7 *)
Definition team_records : list record :=
  [ [("name", Plain (JStr "Larry")); ("position_id", Plain (JInt 1));
     ("team_id", Plain (JInt 7))];
    [("id", Plain (JInt 1)); ("title", Plain (JStr "Programmer"))];
    [("id", Plain (JInt 9)); ("label", Plain (JStr "Support"))] ].

(** "Users" (object 0), "Positions" (object 1), "Teams" (object 2) *)
Definition team_setup : M unit :=
  let* _ := __init__ "Users" None (Some (OList [ORecord 0%nat])) in
  let* _ := __init__ "Positions" None (Some (OList [ORecord 1%nat])) in
  let* _ := __init__ "Teams" None (Some (OList [ORecord 2%nat])) in
  ret tt.

Definition team_heap : heap := snd (team_setup (mkHeap team_records [] [])).

(** the relation to "Positions" declared first, the one to "Teams" last *)
Definition positions_then_teams : heap :=
  snd ((let* _ := relate_dataset 0%nat 1%nat "position_id" "id" in
        relate_dataset 0%nat 2%nat "team_id" "id") team_heap).

(** the same two relations, declared the other way round *)
Definition teams_then_positions : heap :=
  snd ((let* _ := relate_dataset 0%nat 2%nat "team_id" "id" in
        relate_dataset 0%nat 1%nat "position_id" "id") team_heap).

(** "absent or explicitly null" *)
Definition absent_or_null (r : record) (k : string) : bool :=
  match dict_get r k with
  | None | Some (Plain JNone) => true
  | Some _ => false
  end.

(** what [filter_by_value] makes of a selection [ls] of the records of
    [self]: the constructor validates the selection again, and either
    raises, or a new dataset object is put at the end of the store, with
    the name and the relation list of [self] *)
Definition filtered (h : heap) (self : loc) (ls : list loc)
  : (exn + loc) * heap :=
  match _validate_data_types h ls (sorted (all_keys h ls)) with
  | inl e => (inl e, h)
  | inr m =>
      (inr (length (datasets h)),
       mkHeap (records h) (relation_lists h ++ [[]])
              (datasets h ++
               [mkDataSet (name (dataset_at h self)) ls
                          (sorted (all_keys h ls)) (fst m) (snd m)
                          (_dataset_relations (dataset_at h self))]))
  end.

(** [{"name": "Larry", "credit_card_number": None},
     {"name": "David", "credit_card_number": 4111}] *)
Definition card_records : list record :=
  [ [("name", Plain (JStr "Larry")); ("credit_card_number", Plain JNone)];
    [("name", Plain (JStr "David")); ("credit_card_number", Plain (JInt 4111))] ].

Definition card_heap : heap :=
  snd (__init__ "Cards" None (Some (OList (map ORecord [0; 1]%nat)))
         (mkHeap card_records [] [])).

(** "the record's list for the field contains the value" *)
Definition list_contains (r : record) (k : string) (v : json) : bool :=
  match dict_get r k with
  | Some (Plain (JList xs)) => existsb (fun e => is_or_eq e v) xs
  | _ => false
  end.

(** the people and their skills of the test of list filtering *)
Definition skills_records : list record :=
  [ [("name", Plain (JStr "Larry")); ("age", Plain (JInt 26));
     ("skills", Plain (JList [JStr "python"; JStr "sql"]))];
    [("name", Plain (JStr "David")); ("age", Plain (JInt 26));
     ("skills", Plain (JList [JStr "java"; JStr "excel"]))];
    [("name", Plain (JStr "Rachel")); ("age", Plain (JInt 44));
     ("skills", Plain (JList [JStr "java"; JStr "sql"]))] ].

Definition skills_heap : heap :=
  snd (__init__ "People" None (Some (OList (map ORecord [0; 1; 2]%nat)))
         (mkHeap skills_records [] [])).

(** ** What validation accepts and rejects, stated on the records *)

Section field_conditions.
Variable h : heap.
Variable ls : list loc.
Variable f : string.

(** the type of the value that record [l] holds for the field ([NoneType]
    when the field is null or absent) *)
Definition type_at (l : loc) : pytype := type_of (get (record_at h l) f).

(** no record has a value for the field: it is null or absent throughout *)
Definition entirely_null : Prop :=
  forall l, l ∈ ls -> type_at l = NoneType.

(** two records hold values of different types *)
Definition mixed_types : Prop :=
  exists l1 l2, l1 ∈ ls /\ l2 ∈ ls /\
                type_at l1 <> NoneType /\ type_at l2 <> NoneType /\
                type_at l1 <> type_at l2.

(** the values of the field that are not null all have type [t], and there
    is one *)
Definition single_type (t : pytype) : Prop :=
  t <> NoneType /\
  (exists l, l ∈ ls /\ type_at l = t) /\
  (forall l, l ∈ ls -> type_at l = t \/ type_at l = NoneType).

(** every record holds a list under the field *)
Definition list_everywhere : Prop :=
  forall l, l ∈ ls ->
            exists xs, dict_get (record_at h l) f = Some (Plain (JList xs)).

(** some list of the field has an element of type [et] *)
Definition element_type (et : pytype) : Prop :=
  exists l xs x, l ∈ ls /\
                 dict_get (record_at h l) f = Some (Plain (JList xs)) /\
                 x ∈ xs /\ type_of_json x = et.

(** the elements of all lists of the field have one and the same type *)
Definition one_element_type : Prop :=
  exists et, element_type et /\ forall et', element_type et' -> et' = et.

(** the reasons for which validation raises [DataLoadException] on a
    field: no value at all, values of several types, objects, or lists
    whose elements are not of exactly one type *)
Definition field_rejected : Prop :=
  entirely_null \/ mixed_types \/ single_type dict_t \/
  (single_type list_t /\ list_everywhere /\ ~ one_element_type).

(** a field that validation lets pass *)
Definition field_accepted : Prop :=
  exists t, single_type t /\ t <> dict_t /\
            (t = list_t -> list_everywhere /\ one_element_type).
End field_conditions.

(** [_parsed_data] counts as given unless it is left out or [None] *)
Definition parsed_given (o : option pyobj) : bool :=
  match o with
  | None | Some ONone => false
  | Some _ => true
  end.

(** the data that the constructor goes on with, when exactly one of the two
    sources is given *)
Definition source (json_path _parsed_data : option pyobj) : option pyobj :=
  match json_path, parsed_given _parsed_data with
  | Some d, false => Some d
  | None, true => _parsed_data
  | _, _ => None
  end.

(** a list of mappings *)
Definition list_of_records (o : pyobj) (ls : list loc) : Prop :=
  o = OList (map ORecord ls).

(** a list with an element that is not a mapping *)
Definition list_with_other (o : pyobj) : Prop :=
  exists elems, o = OList elems /\
                exists x, x ∈ elems /\ forall l, x <> ORecord l.

(** not a list at all *)
Definition not_a_list (o : pyobj) : Prop := forall elems, o <> OList elems.

(** the reserved field is a key of raw input, that is, of data read from a
    JSON file *)
Definition reserved_in_raw (h : heap) (json_path : option pyobj)
    (ls : list loc) : Prop :=
  is_Some json_path /\ "_foreign_fields" ∈ all_keys h ls.

(** in the order of the sorted fields, the first field that validation does
    not accept is one that it rejects *)
Definition first_failure_rejected (h : heap) (ls : list loc) : Prop :=
  exists pre f post,
    sorted (all_keys h ls) = pre ++ f :: post /\
    (forall f', f' ∈ pre -> field_accepted h ls f') /\
    field_rejected h ls f.

(** in the order of the sorted fields, the first field that validation does
    not accept is a list field for which some record holds no list (the
    field is absent there, or null) *)
Definition first_failure_incomplete (h : heap) (ls : list loc) : Prop :=
  exists pre f post,
    sorted (all_keys h ls) = pre ++ f :: post /\
    (forall f', f' ∈ pre -> field_accepted h ls f') /\
    single_type h ls f list_t /\ ~ list_everywhere h ls f.

(** a list with a non-mapping element: [[1]] *)
Definition number_list : pyobj := OList [OInt 1].

(** [[{"name": "Larry", "tags": ["a"]}, {"name": "David"}]]: a list field
    that the second record lacks *)
Definition tagged_records : list record :=
  [ [("name", Plain (JStr "Larry")); ("tags", Plain (JList [JStr "a"]))];
    [("name", Plain (JStr "David"))] ].


(** [relate_dataset] as the specification words its success: one relation
    is appended to the relations of this dataset, and the target dataset is
    not affected *)
Definition relates_as_specified (h : heap) (self other : loc)
    (fa fb : string) : Prop :=
  forall h',
    relate_dataset self other fa fb h = (inr tt, h') ->
    relations_at h' (_dataset_relations (dataset_at h' self))
    = relations_at h (_dataset_relations (dataset_at h self))
      ++ [mkRelation other fa fb] /\
    dataset_at h' other = dataset_at h other /\
    relations_at h' (_dataset_relations (dataset_at h' other))
    = relations_at h (_dataset_relations (dataset_at h other)).







(** ** Notions used in the further properties *)

(** the test that [filter_by_value] applies to a record, for a field of
    type [t]: membership in the record's list for a list field (a test that
    raises counting as failed), equality otherwise *)
Definition selects (h : heap) (t : pytype) (field : string) (value : json)
    (l : loc) : bool :=
  if bool_decide (t = list_t)
  then match py_in value (default (Plain (JList []))
                                  (dict_get (record_at h l) field)) with
       | inr b => b
       | inl _ => false
       end
  else value_eq (get (record_at h l) field) (Plain value).

(** the stored values of a field have the type that the dataset has
    inferred for it, or are null *)
Definition consistent (h : heap) (self : loc) (k : string) : Prop :=
  forall t l,
    field_type_mapping (dataset_at h self) !! k = Some t ->
    l ∈ _data (dataset_at h self) ->
    type_of (get (record_at h l) k) = t \/
    type_of (get (record_at h l) k) = NoneType.

(** a record on which the resolver has nothing left to do: it carries the
    reserved field, or the dataset has no relation, or the relation declared
    last has no match for it (or there is no such record) *)
Definition settled (h : heap) (self l : loc) : Prop :=
  has_key (record_at h l) "_foreign_fields" = true \/
  snd (resolve h (record_at h l)
         (relations_at h (_dataset_relations (dataset_at h self)))) = [] \/
  records h !! l = None.

(** no relation of the dataset joins on the reserved field of its target *)
Definition joins_on_own_fields (h : heap) (self : loc) : Prop :=
  forall relation,
    relation ∈ relations_at h (_dataset_relations (dataset_at h self)) ->
    foreign_field relation <> "_foreign_fields".

(** all matches that the relations filed under one name contribute, in the
    order of the relations *)
Definition matches_under (h : heap) (r : record) (rels : list DataSetRelation)
    (nm : string) : list loc :=
  concat (map (foreign_matches h r)
              (filter (fun relation => target_name h relation = nm) rels)).

(** the shape of the stores that the program builds: every dataset has its
    relation list, every relation points to a dataset, and no relation list
    has two relations whose targets have the same name *)
Definition well_formed (h : heap) : Prop :=
  (forall d ds, datasets h !! d = Some ds ->
                is_Some (relation_lists h !! _dataset_relations ds)) /\
  (forall rl rs relation,
     relation_lists h !! rl = Some rs -> relation ∈ rs ->
     is_Some (datasets h !! foreign_data_set relation)) /\
  (forall rl rs, relation_lists h !! rl = Some rs ->
                 NoDup (map (target_name h) rs)).
(** * Properties *)

(** ** Filtering with a value of the wrong type *)

(** C6: on a field whose inferred type is not list, filtering with a
    non-null value of another type raises [DataSetException] (the query
    error) and leaves the whole store, and so the dataset, as it was. *)
Theorem filter_by_value_type_mismatch
    (h : heap) (self : loc) (field : string) (value : json) (t : pytype) :
  field_type_mapping (dataset_at h self) !! field = Some t ->
  t <> list_t ->
  value <> JNone ->
  type_of_json value <> t ->
  filter_by_value self field value h = (inl DataSetException, h).
Proof.
  intros Hty Hlist Hnone Hneq.
  unfold filter_by_value, bind, reading. cbn.
  rewrite Hty.
  rewrite (bool_decide_eq_true_2 _ Hlist).
  rewrite (bool_decide_eq_true_2 _ Hneq).
  destruct value; try done.
Qed.

Lemma filter_by_value_type_mismatch_witness :
  filter_by_value 0%nat "name" (JInt 23) people_heap
  = (inl DataSetException, people_heap).
Proof.
  apply (filter_by_value_type_mismatch people_heap 0%nat "name" (JInt 23) str_t).
  - vm_compute. reflexivity.
  - discriminate.
  - discriminate.
  - discriminate.
Defined.

(** ** Declaring relations *)

Lemma existsb_name_true (h : heap) (nm : string) (rels : list DataSetRelation) :
  existsb (fun relation =>
             String.eqb (name (dataset_at h (foreign_data_set relation))) nm) rels
  = true <->
  exists relation, relation ∈ rels /\
                   name (dataset_at h (foreign_data_set relation)) = nm.
Proof.
  rewrite existsb_exists. split.
  - intros (r & Hin & Heq). exists r. split.
    + by apply list_elem_of_In.
    + by apply String.eqb_eq.
  - intros (r & Hin & Heq). exists r. split.
    + by apply list_elem_of_In.
    + by apply String.eqb_eq.
Qed.

Lemma relations_at_insert_eq (h : heap) (rl : loc) (rs : list DataSetRelation) :
  is_Some (relation_lists h !! rl) ->
  default [] (<[rl := rs]> (relation_lists h) !! rl) = rs.
Proof.
  intros [old Hold].
  rewrite list_lookup_insert_eq; [done|].
  by eapply lookup_lt_Some.
Qed.

(** C9, as the code has it.  [relate_dataset] raises [DataSetException] as
    soon as some existing relation of this dataset points to a dataset with
    the name of the new target, whether or not that is the same dataset
    object, and then changes nothing.  Otherwise it appends exactly the new
    relation to this dataset's relation list and leaves every dataset
    object (the target included), every record and every other relation
    list alone.  So the relations of the target are what they were, unless
    the target holds the very relation list of this dataset (it is this
    dataset itself, or its parent or child by [filter_by_value]): then the
    new relation is one of the target's relations too. *)
Theorem relate_dataset_spec
    (h : heap) (self other_dataset : loc) (fa fb : string) :
  let rl := _dataset_relations (dataset_at h self) in
  let target_rl := _dataset_relations (dataset_at h other_dataset) in
  is_Some (relation_lists h !! rl) ->
  ((exists relation,
       relation ∈ relations_at h rl /\
       name (dataset_at h (foreign_data_set relation))
       = name (dataset_at h other_dataset)) ->
   relate_dataset self other_dataset fa fb h = (inl DataSetException, h))
  /\
  ((forall relation,
       relation ∈ relations_at h rl ->
       name (dataset_at h (foreign_data_set relation))
       <> name (dataset_at h other_dataset)) ->
   exists h',
     relate_dataset self other_dataset fa fb h = (inr tt, h') /\
     relations_at h' rl
     = relations_at h rl ++ [mkRelation other_dataset fa fb] /\
     (forall rl', rl' <> rl -> relations_at h' rl' = relations_at h rl') /\
     datasets h' = datasets h /\
     records h' = records h /\
     (target_rl <> rl ->
      relations_at h' (_dataset_relations (dataset_at h' other_dataset))
      = relations_at h target_rl) /\
     (target_rl = rl ->
      relations_at h' (_dataset_relations (dataset_at h' other_dataset))
      = relations_at h target_rl ++ [mkRelation other_dataset fa fb])).
Proof.
  intros rl target_rl Hrl. split.
  - intros Hex. apply existsb_name_true in Hex.
    unfold relate_dataset, bind, reading. cbn. fold rl.
    by rewrite Hex.
  - intros Hall.
    assert (existsb
              (fun relation =>
                 String.eqb (name (dataset_at h (foreign_data_set relation)))
                            (name (dataset_at h other_dataset)))
              (relations_at h rl) = false) as Hno.
    { apply not_true_is_false. intros Hex.
      apply existsb_name_true in Hex as (r & Hin & Heq).
      by apply (Hall r). }
    unfold relate_dataset, bind, reading. cbn. fold rl. rewrite Hno.
    set (h' := mkHeap (records h)
                 (<[rl := relations_at h rl
                          ++ [mkRelation other_dataset fa fb]]>
                    (relation_lists h))
                 (datasets h)).
    exists h'. split; [reflexivity|].
    assert (relations_at h' rl
            = relations_at h rl ++ [mkRelation other_dataset fa fb]) as Hnew.
    { unfold relations_at at 1. cbn. by apply relations_at_insert_eq. }
    assert (forall rl', rl' <> rl -> relations_at h' rl' = relations_at h rl')
      as Hother.
    { intros rl' Hne. unfold relations_at. cbn.
      by rewrite list_lookup_insert_ne. }
    assert (dataset_at h' other_dataset = dataset_at h other_dataset) as Hds.
    { done. }
    split; [done|]. split; [done|]. split; [done|]. split; [done|].
    change (_dataset_relations (dataset_at h' other_dataset)) with target_rl.
    split.
    + apply Hother.
    + intros Heq. rewrite Heq. exact Hnew.
Qed.

Lemma relate_dataset_spec_witness :
  relate_dataset 0%nat 2%nat "position_id" "id" staff_related_heap
  = (inl DataSetException, staff_related_heap) /\
  exists h',
    relate_dataset 0%nat 0%nat "name" "name" staff_heap = (inr tt, h') /\
    relations_at h' (_dataset_relations (dataset_at h' 0%nat))
    = [mkRelation 0%nat "name" "name"].
Proof.
  split.
  - assert (is_Some (relation_lists staff_related_heap
                       !! _dataset_relations
                            (dataset_at staff_related_heap 0%nat))) as Hrl.
    { vm_compute. eauto. }
    destruct (relate_dataset_spec staff_related_heap 0%nat 2%nat
                "position_id" "id" Hrl) as [Hfail _].
    apply Hfail.
    exists (mkRelation 1%nat "position_id" "id"). split.
    + vm_compute. apply list_elem_of_here.
    + vm_compute. reflexivity.
  - assert (is_Some (relation_lists staff_heap
                       !! _dataset_relations (dataset_at staff_heap 0%nat)))
      as Hrl.
    { vm_compute. eauto. }
    destruct (relate_dataset_spec staff_heap 0%nat 0%nat "name" "name" Hrl)
      as [_ Hok].
    destruct Hok as (h' & Hrun & _ & _ & _ & _ & _ & Hshared).
    { intros relation Hin. vm_compute in Hin. by apply elem_of_nil in Hin. }
    exists h'. split; [exact Hrun|].
    rewrite Hshared by reflexivity. by vm_compute.
Defined.

(** C9 as stated: that a successful [relate_dataset] does not affect the
    target fails when a dataset is related to itself, as for a join of the
    users with the users of the same name: the target's relations were
    empty and now hold the new relation. *)
Lemma relate_to_itself_changes_target :
  ~ relates_as_specified staff_heap 0%nat 0%nat "name" "name".
Proof.
  intros Hspec.
  destruct (Hspec (snd (relate_dataset 0%nat 0%nat "name" "name" staff_heap)))
    as (_ & _ & Hsame); [by vm_compute|].
  vm_compute in Hsame. discriminate.
Qed.

(** ** The constructor on a list of records *)

Lemma collect_keys_records (h : heap) (ls : list loc) :
  collect_keys h (map ORecord ls) = inr (all_keys h ls).
Proof.
  induction ls as [|l ls IH]; [done|].
  cbn. by rewrite IH.
Qed.

Lemma record_refs_records (ls : list loc) : record_refs (map ORecord ls) = ls.
Proof.
  induction ls as [|l ls IH]; [done|].
  unfold record_refs in *. cbn. by rewrite IH.
Qed.

(** What [DataSet(name, _parsed_data=[...records...])] does: it validates,
    and then allocates a fresh, empty relation list and the new object. *)
Lemma init_parsed_records (h : heap) (nm : string) (ls : list loc) :
  __init__ nm None (Some (OList (map ORecord ls))) h =
  match _validate_data_types h ls (sorted (all_keys h ls)) with
  | inl e => (inl e, h)
  | inr m =>
      (inr (length (datasets h)),
       mkHeap (records h) (relation_lists h ++ [[]])
              (datasets h ++ [built_dataset h nm ls m]))
  end.
Proof.
  unfold __init__, bind, reading, _get_data_fields. cbn.
  rewrite collect_keys_records, record_refs_records.
  destruct (_validate_data_types h ls (sorted (all_keys h ls))) as [e|m]; done.
Qed.

Lemma dataset_at_app_new (rs : list record) (rls : list (list DataSetRelation))
    (ds : list DataSet) (d : DataSet) :
  dataset_at (mkHeap rs rls (ds ++ [d])) (length ds) = d.
Proof.
  unfold dataset_at. cbn.
  rewrite lookup_app_r by done. by rewrite Nat.sub_diag.
Qed.

Lemma insert_app_new {A} (xs : list A) (x y : A) :
  <[length xs := y]> (xs ++ [x]) = xs ++ [y].
Proof.
  replace (length xs) with (length xs + 0)%nat at 1 by lia.
  by rewrite insert_app_r.
Qed.

Lemma dataset_at_valid (h : heap) (self : loc) (k : string) (t : pytype) :
  field_type_mapping (dataset_at h self) !! k = Some t ->
  (self < length (datasets h))%nat.
Proof.
  unfold dataset_at. intros Hk.
  destruct (datasets h !! self) as [d|] eqn:Hd.
  - by eapply lookup_lt_Some.
  - cbn in Hk. by rewrite lookup_empty in Hk.
Qed.

(** The shape of every successful [filter_by_value]: the new object is the
    one built by the constructor from some selection [ls] of records, with
    its relation list replaced by the parent's. *)
Lemma filter_by_value_success
    (h h1 : heap) (self child : loc) (field : string) (value : json) :
  filter_by_value self field value h = (inr child, h1) ->
  exists ls m,
    _validate_data_types h ls (sorted (all_keys h ls)) = inr m /\
    (if bool_decide (field_type_mapping (dataset_at h self) !! field
                     = Some list_t)
     then select_containing h field value (_data (dataset_at h self)) = inr ls
     else select_equal h field value (_data (dataset_at h self)) = ls) /\
    child = length (datasets h) /\
    (self < child)%nat /\
    records h1 = records h /\
    relation_lists h1 = relation_lists h ++ [[]] /\
    datasets h1
    = datasets h ++
      [mkDataSet (name (dataset_at h self)) ls (sorted (all_keys h ls))
                 (fst m) (snd m) (_dataset_relations (dataset_at h self))].
Proof.
  unfold filter_by_value. unfold bind at 1. unfold reading at 1.
  destruct (field_type_mapping (dataset_at h self) !! field) as [t|] eqn:Hty;
    [|done].
  pose proof (dataset_at_valid _ _ _ _ Hty) as Hself.
  destruct (bool_decide (t <> list_t) && negb (is_none value)
            && bool_decide (type_of_json value <> t)); [done|].
  assert (exists r,
            (if bool_decide (Some t = Some list_t)
             then select_containing h field value (_data (dataset_at h self)) = r
             else inr (select_equal h field value (_data (dataset_at h self))) = r)
            /\ (if bool_decide (t = list_t)
                then reading (fun h0 =>
                       select_containing h0 field value (_data (dataset_at h self)))
                else reading (fun h0 =>
                       inr (select_equal h0 field value (_data (dataset_at h self)))))
               h = (r, h))
    as (r & Hr & Hsel).
  { destruct (decide (t = list_t)) as [->|Hne].
    - rewrite !bool_decide_eq_true_2 by done. eexists. split; reflexivity.
    - rewrite !bool_decide_eq_false_2 by congruence.
      eexists. split; reflexivity. }
  unfold bind at 1. rewrite Hsel. clear Hsel.
  destruct r as [e|ls]; [done|].
  unfold bind at 1. rewrite init_parsed_records.
  destruct (_validate_data_types h ls (sorted (all_keys h ls))) as [e|m] eqn:Hv;
    [done|].
  unfold bind, set_dataset_relations, modify, ret. cbn.
  intros [= <- <-]. exists ls, m. cbn.
  split; [done|]. split.
  { destruct (bool_decide (Some t = Some list_t)); [done|]. by injection Hr. }
  repeat split; try done.
  rewrite dataset_at_app_new. apply insert_app_new.
Qed.

Lemma relate_dataset_success
    (h h2 : heap) (d other : loc) (fa fb : string) :
  relate_dataset d other fa fb h = (inr tt, h2) ->
  let rl := _dataset_relations (dataset_at h d) in
  h2 = mkHeap (records h)
              (<[rl := relations_at h rl ++ [mkRelation other fa fb]]>
                 (relation_lists h))
              (datasets h).
Proof.
  unfold relate_dataset, bind, reading. cbn.
  destruct (existsb _ _); [done|].
  unfold append_relation, modify. by intros [= <-].
Qed.

(** ** The read path works in place *)

Lemma dict_set_absent {V : Type} (d : list (string * V)) (k : string) (v : V) :
  has_key d k = false -> dict_set d k v = d ++ [(k, v)].
Proof.
  unfold has_key, keys. induction d as [|[k' v'] d IH]; [done|].
  cbn. rewrite String.eqb_sym.
  destruct (String.eqb k' k); [done|].
  cbn. intros Hd. by rewrite IH.
Qed.

Lemma has_key_app_same {V : Type} (d : list (string * V)) (k : string) (v : V) :
  has_key (d ++ [(k, v)]) k = true.
Proof.
  unfold has_key, keys. rewrite map_app, existsb_app. cbn.
  rewrite String.eqb_refl. by rewrite orb_true_r.
Qed.

Lemma record_at_set_eq (h : heap) (l : loc) (r : record) :
  (l < length (records h))%nat ->
  record_at (mkHeap (<[l := r]> (records h)) (relation_lists h) (datasets h)) l
  = r.
Proof.
  intros Hl. unfold record_at. cbn. by rewrite list_lookup_insert_eq.
Qed.

Lemma record_at_set_ne (h : heap) (l l' : loc) (r : record) :
  l <> l' ->
  record_at (mkHeap (<[l := r]> (records h)) (relation_lists h) (datasets h)) l'
  = record_at h l'.
Proof.
  intros Hl. unfold record_at. cbn. by rewrite list_lookup_insert_ne.
Qed.

Lemma only_attaches_refl (h : heap) : only_attaches h h.
Proof. repeat split. intros l. by left. Qed.

Lemma only_attaches_trans (h1 h2 h3 : heap) :
  only_attaches h1 h2 -> only_attaches h2 h3 -> only_attaches h1 h3.
Proof.
  intros (Hd1 & Hr1 & Hl1 & H1) (Hd2 & Hr2 & Hl2 & H2).
  repeat split; try congruence.
  intros l. destruct (H1 l) as [E1 | (K1 & g1 & E1)],
                     (H2 l) as [E2 | (K2 & g2 & E2)].
  - left. congruence.
  - right. rewrite <- E1. eauto.
  - right. split; [done|]. exists g1. congruence.
  - rewrite E1, has_key_app_same in K2. done.
Qed.

Lemma update_record_attaches (h : heap) (self l : loc) :
  exists h', _update_record_with_foreign_data self l h = (inr l, h') /\
             only_attaches h h'.
Proof.
  unfold _update_record_with_foreign_data, bind, reading. cbn.
  destruct (has_key (record_at h l) "_foreign_fields") eqn:Hkey; cbn.
  { exists h. split; [done | apply only_attaches_refl]. }
  destruct (relations_at h (_dataset_relations (dataset_at h self)))
    as [|rel rels] eqn:Hrels.
  { exists h. split; [done | apply only_attaches_refl]. }
  set (res := resolve h (record_at h l) (rel :: rels)).
  destruct (snd res) as [|t ts].
  { exists h. split; [done | apply only_attaches_refl]. }
  eexists. split; [reflexivity|].
  unfold ret. cbn. repeat split; cbn.
  { by rewrite length_insert. }
  intros l'.
  destruct (decide (l = l')) as [<- | Hne].
  - destruct (records h !! l) as [r|] eqn:Hl.
    + right. split; [done|]. exists (fst res).
      rewrite record_at_set_eq by (by eapply lookup_lt_Some).
      by apply dict_set_absent.
    + left. unfold record_at. cbn.
      by rewrite list_insert_ge by (by apply lookup_ge_None).
  - left. by apply record_at_set_ne.
Qed.

Lemma for_each_update_attaches (self : loc) (ls : list loc) (h : heap) :
  exists h', for_each (_update_record_with_foreign_data self) ls h
             = (inr ls, h') /\ only_attaches h h'.
Proof.
  revert h.
  induction ls as [|l ls IH]; intros h.
  { exists h. split; [done | apply only_attaches_refl]. }
  cbn. unfold bind.
  destruct (update_record_attaches h self l) as (h1 & -> & Ha1).
  destruct (IH h1) as (h2 & -> & Ha2).
  exists h2. split; [done|]. by eapply only_attaches_trans.
Qed.

(** C3, as the code has it: reading resolves the joins in place.  [data]
    always returns, and what it returns are the stored record objects
    themselves, in their order; in the store it changes no dataset object
    and no relation list, and to a record it does at most one thing: it
    appends the reserved field ["_foreign_fields"] to a record that did not
    have it, keeping all its keys and values. *)
Theorem data_attaches_in_place (h : heap) (self : loc) :
  exists h',
    data self h = (inr (_data (dataset_at h self)), h') /\
    only_attaches h h'.
Proof.
  unfold data, bind, reading. cbn.
  destruct (for_each_update_attaches self (_data (dataset_at h self)) h)
    as (h' & -> & Ha).
  by exists h'.
Qed.

(** C3 as stated: that the stored records are the same before and after a
    read fails on the users of the test suite: Larry's stored record has
    gained the reserved field. *)
Lemma data_changes_stored_records :
  let h := staff_related_heap in
  let h' := snd (data 0%nat h) in
  map (record_at h') (_data (dataset_at h' 0%nat))
  <> map (record_at h) (_data (dataset_at h 0%nat)).
Proof. vm_compute. congruence. Qed.

(** ** The join resolver *)

(** C2, evaluated on a user that has a matching position and no matching
    team.  With the relation to "Teams" declared last, the loop leaves
    [foreign_records] empty, the final test [if foreign_records] fails and
    the record is returned without the reserved field, although the group
    for "Positions" is not empty.  With the same relations declared in the
    other order the field is attached. *)
Theorem attachment_depends_on_last_relation :
  let r := record_at team_heap 0%nat in
  foreign_matches team_heap r (mkRelation 1%nat "position_id" "id") = [1%nat] /\
  foreign_matches team_heap r (mkRelation 2%nat "team_id" "id") = [] /\
  (let h' := snd (data 0%nat positions_then_teams) in
   has_key (record_at h' 0%nat) "_foreign_fields" = false) /\
  (let h' := snd (data 0%nat teams_then_positions) in
   dict_get (record_at h' 0%nat) "_foreign_fields"
   = Some (Foreign [("Positions", [1%nat])])).
Proof. vm_compute. done. Qed.

(** C1 as stated: the join as the specification words it fails where an
    integer key meets a float key: Python's [1 == 1.0] holds, so the position
    is attached, while no position has a key of the same type and value. *)
Lemma join_compares_numbers_by_value :
  ~ join_as_specified mixed_heap 0%nat 0%nat
      (mkRelation 1%nat "position_id" "id").
Proof. vm_compute. congruence. Qed.

(** A record without the local field reads as null there, and so does a
    target record without the foreign field; [None == None] holds, so the
    two match.  Heather, who has no [position_id], is joined on the pair
    [("position_id", "grade")] with every position, none of which has a
    [grade]. *)
Lemma missing_fields_match_each_other :
  foreign_matches staff_heap (record_at staff_heap 3%nat)
                  (mkRelation 1%nat "position_id" "grade")
  = [4%nat; 5%nat].
Proof. by vm_compute. Qed.

(** The elements of two lists are compared by identity before they are
    compared by value.  Two records read from JSON files whose keys are the
    array [[NaN]] hold the same NaN object and are joined; a NaN that is
    itself the key equals nothing, and two lists that hold distinct NaN
    objects are unequal. *)
Lemma nan_compared_by_identity_in_lists :
  foreign_matches nan_heap (record_at nan_heap 0%nat)
                  (mkRelation 1%nat "key" "key") = [1%nat] /\
  foreign_entry (record_at (snd (data 0%nat nan_heap)) 0%nat) "B"
  = Some [1%nat] /\
  value_eq (Plain (JFloat S754_nan)) (Plain (JFloat S754_nan)) = false /\
  value_eq (Plain (JList [JNaN 0])) (Plain (JList [JNaN 1])) = false.
Proof. by vm_compute. Qed.

Lemma dict_get_cons {V : Type} (k' : string) (v' : V) (d : list (string * V))
    (k : string) :
  dict_get ((k', v') :: d) k = if String.eqb k' k then Some v' else dict_get d k.
Proof. unfold dict_get. cbn. by destruct (String.eqb k' k). Qed.

Lemma dict_get_set_eq {V : Type} (d : list (string * V)) (k : string) (v : V) :
  dict_get (dict_set d k v) k = Some v.
Proof.
  induction d as [|[k' v'] d IH]; simpl dict_set.
  - by rewrite dict_get_cons, String.eqb_refl.
  - destruct (String.eqb k' k) eqn:E.
    + by rewrite dict_get_cons, String.eqb_refl.
    + by rewrite dict_get_cons, E.
Qed.

Lemma dict_get_set_ne {V : Type} (d : list (string * V)) (k k' : string) (v : V) :
  k <> k' -> dict_get (dict_set d k v) k' = dict_get d k'.
Proof.
  intros Hne. apply String.eqb_neq in Hne.
  induction d as [|[k0 v0] d IH]; simpl dict_set.
  - by rewrite dict_get_cons, Hne.
  - destruct (String.eqb k0 k) eqn:E.
    + apply String.eqb_eq in E as ->. by rewrite !dict_get_cons, Hne.
    + rewrite !dict_get_cons. by rewrite IH.
Qed.

Lemma dict_get_absent {V : Type} (d : list (string * V)) (k : string) :
  has_key d k = false -> dict_get d k = None.
Proof.
  unfold has_key, keys. induction d as [|[k' v'] d IH]; [done|].
  rewrite dict_get_cons. cbn [map existsb fst]. rewrite String.eqb_sym.
  destruct (String.eqb k' k); [done|]. by apply IH.
Qed.

Lemma resolve_step_other (h : heap) (r : record)
    (st : list (string * list loc) * list loc) (relation : DataSetRelation)
    (nm : string) :
  target_name h relation <> nm ->
  dict_get (fst (resolve_step h r st relation)) nm = dict_get (fst st) nm.
Proof.
  intros Hne. unfold resolve_step. cbn [fst].
  destruct (foreign_matches h r relation); [done|].
  unfold extend. by apply dict_get_set_ne.
Qed.

Lemma resolve_fold_other (h : heap) (r : record) (rels : list DataSetRelation)
    (st : list (string * list loc) * list loc) (nm : string) :
  nm ∉ map (target_name h) rels ->
  dict_get (fst (fold_left (resolve_step h r) rels st)) nm
  = dict_get (fst st) nm.
Proof.
  revert st. induction rels as [|rel rels IH]; intros st Hnm; [done|].
  simpl fold_left. rewrite map_cons in Hnm.
  apply not_elem_of_cons in Hnm as [Hne Hnm].
  rewrite IH by done. apply resolve_step_other. congruence.
Qed.

(** the group that the loop files under the name of one of the relations,
    when no two relations share a target name *)
Lemma resolve_fold_entry (h : heap) (r : record) (rels : list DataSetRelation)
    (st : list (string * list loc) * list loc) (relation : DataSetRelation) :
  relation ∈ rels ->
  NoDup (map (target_name h) rels) ->
  dict_get (fst (fold_left (resolve_step h r) rels st)) (target_name h relation)
  = match foreign_matches h r relation with
    | [] => dict_get (fst st) (target_name h relation)
    | ms => Some (default [] (dict_get (fst st) (target_name h relation)) ++ ms)
    end.
Proof.
  revert st. induction rels as [|rel rels IH]; intros st Hin Hnd.
  { by apply elem_of_nil in Hin. }
  rewrite map_cons in Hnd. apply NoDup_cons in Hnd as [Hfresh Hnd].
  apply elem_of_cons in Hin as [-> | Hin]; simpl fold_left.
  - rewrite resolve_fold_other by done.
    unfold resolve_step. cbn [fst].
    destruct (foreign_matches h r rel) as [|m ms]; [done|].
    unfold extend.
    change (name (dataset_at h (foreign_data_set rel)))
      with (target_name h rel).
    by rewrite dict_get_set_eq.
  - rewrite IH by done.
    assert (target_name h rel <> target_name h relation) as Hne.
    { intros Heq. apply Hfresh. rewrite Heq.
      by apply list_elem_of_fmap_2. }
    by rewrite resolve_step_other.
Qed.

Lemma resolve_fold_last (h : heap) (r : record) (rels : list DataSetRelation)
    (st : list (string * list loc) * list loc) (relation : DataSetRelation) :
  last rels = Some relation ->
  snd (fold_left (resolve_step h r) rels st) = foreign_matches h r relation.
Proof.
  revert st. induction rels as [|rel rels IH]; intros st Hlast; [done|].
  destruct rels as [|rel' rels].
  - cbn in *. by injection Hlast as ->.
  - change (fold_left (resolve_step h r) (rel :: rel' :: rels) st)
      with (fold_left (resolve_step h r) (rel' :: rels)
              (resolve_step h r st rel)).
    by apply IH.
Qed.

Lemma py_eq_none_r (x : json) : py_eq x JNone = true -> x = JNone.
Proof. destruct x as [| | |f| | | |]; try done. by destruct f. Qed.

Lemma value_eq_none_r (v : pyval) :
  value_eq v (Plain JNone) = true -> v = Plain JNone.
Proof.
  destruct v as [x|g]; [|done].
  cbn. intros Hx. by rewrite (py_eq_none_r x Hx).
Qed.

(** C1, as the code has it.  Take a dataset with a relation to a target on
    [(field, foreign_field)], no two of its relations sharing a target name,
    and one of its stored records that does not carry the reserved field yet
    and whose local field is present and not null.  Resolving the record
    returns it, and under the target's name:
    - there is no entry when no record of the target matches;
    - when some record matches, and so does some record of the relation
      that was declared last, the entry lists exactly the target's records
      [t] with [r[field] == t[foreign_field]] under Python's [==] (numbers
      compared by value across bool, int and float, the elements of lists
      by identity first), in the order of the target's records;
    - a target record that matches has the foreign field, and not null. *)
Theorem resolved_entry
    (h : heap) (self l : loc) (relation last_relation : DataSetRelation) :
  let rels := relations_at h (_dataset_relations (dataset_at h self)) in
  let r := record_at h l in
  let matches :=
    filter (fun t => value_eq (get r (field relation))
                              (get (record_at h t) (foreign_field relation))
                     = true)
           (_data (dataset_at h (foreign_data_set relation))) in
  is_Some (records h !! l) ->
  has_key r "_foreign_fields" = false ->
  relation ∈ rels ->
  last rels = Some last_relation ->
  NoDup (map (target_name h) rels) ->
  get r (field relation) <> Plain JNone ->
  exists h',
    _update_record_with_foreign_data self l h = (inr l, h') /\
    (matches = [] ->
     foreign_entry (record_at h' l) (target_name h relation) = None) /\
    (matches <> [] ->
     foreign_matches h r last_relation <> [] ->
     foreign_entry (record_at h' l) (target_name h relation) = Some matches) /\
    (forall t, t ∈ matches ->
               exists x, dict_get (record_at h t) (foreign_field relation)
                         = Some x /\ x <> Plain JNone).
Proof.
  intros rels r matches Hl Hkey Hin Hlast Hnd Hlocal.
  assert (forall t, t ∈ matches ->
                    exists x, dict_get (record_at h t) (foreign_field relation)
                              = Some x /\ x <> Plain JNone) as Hpresent.
  { intros t Ht. apply list_elem_of_filter in Ht as [Heq _].
    unfold get in Heq at 2.
    destruct (dict_get (record_at h t) (foreign_field relation)) as [x|].
    - exists x. split; [done|]. intros ->. cbn in Heq.
      by apply value_eq_none_r in Heq.
    - cbn in Heq. by apply value_eq_none_r in Heq. }
  unfold _update_record_with_foreign_data, bind, reading. cbn.
  fold r. fold rels. rewrite Hkey. cbn.
  destruct rels as [|rel0 rels0] eqn:Hrels.
  { by apply elem_of_nil in Hin. }
  pose proof (resolve_fold_last h r (rel0 :: rels0) ([], []) last_relation Hlast)
    as Hsnd.
  pose proof (resolve_fold_entry h r (rel0 :: rels0) ([], []) relation Hin Hnd)
    as Hfst.
  fold (resolve h r (rel0 :: rels0)) in Hsnd, Hfst.
  change (fold_left (resolve_step h r) rels0 (resolve_step h r ([], []) rel0))
    with (resolve h r (rel0 :: rels0)).
  destruct (snd (resolve h r (rel0 :: rels0))) as [|m ms] eqn:Hres.
  - exists h. split; [done|].
    assert (foreign_entry (record_at h l) (target_name h relation) = None)
      as Hnone.
    { unfold foreign_entry. fold r. by rewrite (dict_get_absent r _ Hkey). }
    split; [done|]. split; [|done].
    intros _ Hne. by rewrite <- Hsnd in Hne.
  - eexists. split; [reflexivity|].
    unfold ret. cbn [fst snd].
    rewrite record_at_set_eq by (destruct Hl; by eapply lookup_lt_Some).
    unfold foreign_entry. rewrite dict_get_set_eq. rewrite Hfst.
    change (foreign_matches h r relation) with matches.
    cbn [fst]. change (dict_get [] (target_name h relation))
      with (@None (list loc)).
    split; [by intros -> |]. split; [|done].
    intros Hne _. by destruct matches.
Qed.

Lemma resolved_entry_witness :
  exists h',
    _update_record_with_foreign_data 0%nat 0%nat staff_related_heap
    = (inr 0%nat, h') /\
    foreign_entry (record_at h' 0%nat) "Positions" = Some [4%nat].
Proof.
  destruct (resolved_entry staff_related_heap 0%nat 0%nat
              (mkRelation 1%nat "position_id" "id")
              (mkRelation 1%nat "position_id" "id"))
    as (h' & Hrun & _ & Hsome & _).
  - vm_compute. eauto.
  - vm_compute. reflexivity.
  - vm_compute. apply list_elem_of_here.
  - vm_compute. reflexivity.
  - vm_compute. apply NoDup_cons. split; [apply not_elem_of_nil | apply NoDup_nil_2].
  - vm_compute. discriminate.
  - exists h'. split; [exact Hrun|].
    apply Hsome; vm_compute; discriminate.
Defined.

(** ** Filtering *)

Lemma filtered_new_dataset (h h1 : heap) (self child : loc) (ls : list loc) :
  filtered h self ls = (inr child, h1) ->
  child = length (datasets h) /\
  records h1 = records h /\
  _data (dataset_at h1 child) = ls /\
  name (dataset_at h1 child) = name (dataset_at h self) /\
  fields (dataset_at h1 child) = sorted (all_keys h ls) /\
  exists m, _validate_data_types h ls (sorted (all_keys h ls)) = inr m /\
            field_type_mapping (dataset_at h1 child) = fst m.
Proof.
  unfold filtered.
  destruct (_validate_data_types h ls (sorted (all_keys h ls))) as [e|m];
    [done|].
  intros [= <- <-]. rewrite dataset_at_app_new. cbn. eauto 10.
Qed.

(** [filter_by_value] once the type test has passed, on a field that is not
    a list field *)
Lemma filter_by_value_plain_field
    (h : heap) (self : loc) (field : string) (value : json) (t : pytype) :
  field_type_mapping (dataset_at h self) !! field = Some t ->
  t <> list_t ->
  value = JNone \/ type_of_json value = t ->
  filter_by_value self field value h
  = filtered h self (select_equal h field value (_data (dataset_at h self))).
Proof.
  intros Hty Hlist Hval.
  unfold filter_by_value. unfold bind at 1. unfold reading at 1.
  rewrite Hty.
  assert (bool_decide (t <> list_t) && negb (is_none value)
          && bool_decide (type_of_json value <> t) = false) as ->.
  { destruct Hval as [-> | <-].
    - by rewrite andb_false_r.
    - rewrite (bool_decide_eq_false_2 (type_of_json value <> type_of_json value))
        by congruence.
      by rewrite andb_false_r. }
  rewrite (bool_decide_eq_false_2 (t = list_t)) by done.
  unfold bind at 1. unfold reading at 1.
  unfold bind at 1. rewrite init_parsed_records. unfold filtered.
  destruct (_validate_data_types h _ _) as [e|m]; [done|].
  unfold bind, set_dataset_relations, modify, ret. cbn.
  rewrite dataset_at_app_new. by rewrite insert_app_new.
Qed.

(** ... and on a list field, where no type test is made *)
Lemma filter_by_value_list_field
    (h : heap) (self : loc) (field : string) (value : json) :
  field_type_mapping (dataset_at h self) !! field = Some list_t ->
  filter_by_value self field value h
  = match select_containing h field value (_data (dataset_at h self)) with
    | inl e => (inl e, h)
    | inr ls => filtered h self ls
    end.
Proof.
  intros Hty.
  unfold filter_by_value. unfold bind at 1. unfold reading at 1.
  rewrite Hty.
  rewrite (bool_decide_eq_false_2 (list_t <> list_t)) by congruence.
  rewrite (bool_decide_eq_true_2 (list_t = list_t)) by done.
  cbn [andb]. unfold bind at 1. unfold reading at 1.
  destruct (select_containing h field value _) as [e|ls]; [done|].
  unfold bind at 1. rewrite init_parsed_records. unfold filtered.
  destruct (_validate_data_types h _ _) as [e|m]; [done|].
  unfold bind, set_dataset_relations, modify, ret. cbn.
  rewrite dataset_at_app_new. by rewrite insert_app_new.
Qed.

Lemma py_eq_none_is_none (x : json) : py_eq x JNone = is_none x.
Proof. destruct x as [| | |f| | | |]; try done. by destruct f. Qed.

Lemma value_eq_null (r : record) (k : string) :
  value_eq (get r k) (Plain JNone) = absent_or_null r k.
Proof.
  unfold get, absent_or_null.
  destruct (dict_get r k) as [[x|g]|]; cbn; try done.
  rewrite py_eq_none_is_none. by destruct x.
Qed.

Lemma select_equal_null (h : heap) (field : string) (ls : list loc) :
  select_equal h field JNone ls
  = filter (fun l => absent_or_null (record_at h l) field = true) ls.
Proof.
  unfold select_equal. apply list_filter_iff.
  intros l. by rewrite value_eq_null.
Qed.

(** ** Validation *)

Lemma elem_of_sorted (ks : list string) (k : string) : k ∈ sorted ks <-> k ∈ ks.
Proof.
  unfold sorted. rewrite merge_sort_Permutation. apply elem_of_remove_dups.
Qed.

Lemma elem_of_all_keys (h : heap) (ls : list loc) (k : string) :
  k ∈ all_keys h ls <-> exists l, l ∈ ls /\ k ∈ keys (record_at h l).
Proof.
  unfold all_keys. rewrite list_elem_of_In, in_concat. split.
  - intros (ks & Hks & Hk). apply in_map_iff in Hks as (l & <- & Hl).
    exists l. by rewrite !list_elem_of_In.
  - intros (l & Hl & Hk). exists (keys (record_at h l)).
    split; [|by apply list_elem_of_In].
    apply (in_map (fun l => keys (record_at h l))). by apply list_elem_of_In.
Qed.

Lemma elem_of_keys_get {V : Type} (d : list (string * V)) (k : string) :
  k ∈ keys d <-> is_Some (dict_get d k).
Proof.
  unfold keys. induction d as [|[k' v'] d IH].
  - cbn. split; [by intros ?%elem_of_nil | by intros [? ?]].
  - rewrite map_cons, elem_of_cons, dict_get_cons. cbn [fst].
    destruct (String.eqb k' k) eqn:E.
    + apply String.eqb_eq in E as ->. split; eauto.
    + apply String.eqb_neq in E. rewrite IH. split; [|eauto].
      intros [? | ?]; [congruence | done].
Qed.

Lemma elem_of_value_types (h : heap) (data : list loc) (field : string)
    (t : pytype) :
  t ∈ value_types h data field <->
  t <> NoneType /\
  exists l, l ∈ data /\ type_of (get (record_at h l) field) = t.
Proof.
  unfold value_types.
  rewrite elem_of_remove_dups, list_elem_of_filter, list_elem_of_fmap.
  split.
  - intros (Ht & l & -> & Hl). eauto.
  - intros (Ht & l & Hl & <-). eauto.
Qed.

Lemma validate_field_ok (h : heap) (data : list loc) (field : string)
    (t : pytype) (et : option pytype) :
  validate_field h data field = inr (t, et) ->
  value_types h data field = [t].
Proof.
  unfold validate_field.
  destruct (value_types h data field) as [|t0 [|t1 vts]]; try done.
  cbn [length Nat.ltb Nat.leb].
  destruct (bool_decide (t0 = dict_t)); [done|].
  destruct (bool_decide (t0 = list_t)).
  - destruct (types_in_list h data field) as [e|ts]; [done|].
    destruct (remove_dups ts) as [|? [|? ?]]; try done. congruence.
  - congruence.
Qed.

Lemma validate_loop_fields (h : heap) (data : list loc) (fs : list string)
    (fm lm : gmap string pytype) (m : gmap string pytype * gmap string pytype) :
  validate_loop h data fs fm lm = inr m ->
  (forall f, f ∈ fs ->
             exists t et, validate_field h data f = inr (t, et) /\
                          fst m !! f = Some t) /\
  (forall f, f ∉ fs -> fst m !! f = fm !! f).
Proof.
  revert fm lm. induction fs as [|f0 fs IH]; intros fm lm.
  { cbn. intros [= <-]. split; [|done]. by intros f ?%elem_of_nil. }
  cbn. destruct (validate_field h data f0) as [e|[t0 et0]] eqn:Hf0; [done|].
  intros Hloop. apply IH in Hloop as [Hin Hout]. split.
  - intros f Hf. destruct (decide (f ∈ fs)) as [Hfs | Hfs].
    + by apply Hin.
    + apply elem_of_cons in Hf as [-> | Hf]; [|done].
      exists t0, et0. split; [done|].
      rewrite Hout by done. by rewrite lookup_insert_eq.
  - intros f Hf. apply not_elem_of_cons in Hf as [Hne Hf].
    rewrite Hout by done. by rewrite lookup_insert_ne.
Qed.

(** a field of a validated dataset has a type, and some record holds a
    value of that type under it *)
Lemma validated_field_has_value (h : heap) (ls : list loc) (field : string)
    (m : gmap string pytype * gmap string pytype) :
  _validate_data_types h ls (sorted (all_keys h ls)) = inr m ->
  field ∈ all_keys h ls ->
  exists t, fst m !! field = Some t /\ value_types h ls field = [t].
Proof.
  intros Hv Hk. apply validate_loop_fields in Hv as [Hin _].
  destruct (Hin field) as (t & et & Hf & Hm).
  { by apply elem_of_sorted. }
  exists t. split; [done|]. by eapply validate_field_ok.
Qed.

Lemma validated_mapping_dom (h : heap) (ls : list loc) (field : string)
    (m : gmap string pytype * gmap string pytype) :
  _validate_data_types h ls (sorted (all_keys h ls)) = inr m ->
  field ∉ all_keys h ls ->
  fst m !! field = None.
Proof.
  intros Hv Hk. apply validate_loop_fields in Hv as [_ Hout].
  rewrite Hout; [done|]. by rewrite elem_of_sorted.
Qed.

(** ** Filtering for null *)

Lemma absent_or_null_type (r : record) (k : string) :
  absent_or_null r k = true -> type_of (get r k) = NoneType.
Proof.
  unfold absent_or_null, get.
  destruct (dict_get r k) as [[[]|]|]; done.
Qed.

(** C5, as the code has it.  On a field of the schema that is not a list
    field, [filter_by_value(field, None)] selects exactly the records in
    which the field is absent or explicitly null, in their order, and hands
    the selection to the constructor, which validates it again:
    - if that validation raises, the filter raises the same exception and
      the store is unchanged; this is the case whenever a selected record
      holds the field explicitly null;
    - otherwise the filter returns a new dataset whose records are exactly
      the selected ones, no more than the records of the input, and in all
      of them the field is absent. *)
Theorem filter_by_value_null
    (h : heap) (self : loc) (field : string) (t : pytype) :
  let ds := dataset_at h self in
  let selected :=
    filter (fun l => absent_or_null (record_at h l) field = true) (_data ds) in
  let checked := _validate_data_types h selected (sorted (all_keys h selected)) in
  field_type_mapping ds !! field = Some t ->
  t <> list_t ->
  (forall e, checked = inl e ->
             filter_by_value self field JNone h = (inl e, h)) /\
  ((exists l, l ∈ selected /\
              dict_get (record_at h l) field = Some (Plain JNone)) ->
   exists e, checked = inl e) /\
  (forall m, checked = inr m ->
     exists child h1,
       filter_by_value self field JNone h = (inr child, h1) /\
       _data (dataset_at h1 child) = selected /\
       (__len__ h1 child <= __len__ h self)%nat /\
       records h1 = records h /\
       forall l, l ∈ selected -> dict_get (record_at h l) field = None).
Proof.
  intros ds selected checked Hty Hlist.
  assert (filter_by_value self field JNone h = filtered h self selected) as Hrun.
  { rewrite (filter_by_value_plain_field h self field JNone t) by auto.
    by rewrite select_equal_null. }
  assert (forall m, checked = inr m -> field ∉ all_keys h selected) as Habsent.
  { intros m Hm Hk.
    destruct (validated_field_has_value h selected field m Hm Hk)
      as (t' & _ & Hvt).
    assert (t' ∈ value_types h selected field) as Hin.
    { rewrite Hvt. apply list_elem_of_here. }
    apply elem_of_value_types in Hin as (Hne & l & Hl & Htype).
    apply list_elem_of_filter in Hl as [Hnull _].
    apply absent_or_null_type in Hnull. congruence. }
  split; [|split].
  - intros e He. rewrite Hrun. unfold filtered. fold checked. by rewrite He.
  - intros (l & Hl & Hnull).
    destruct checked as [e|m] eqn:Hc; [eauto|].
    exfalso. apply (Habsent m eq_refl).
    apply elem_of_all_keys. exists l. split; [done|].
    apply elem_of_keys_get. by rewrite Hnull.
  - intros m Hm.
    destruct (filtered h self selected) as [[e|child] h1] eqn:Hf.
    { unfold filtered in Hf. fold checked in Hf. by rewrite Hm in Hf. }
    exists child, h1. split; [by rewrite Hrun|].
    apply filtered_new_dataset in Hf as (_ & Hrec & Hdata & _).
    split; [done|]. split.
    { unfold __len__. rewrite Hdata. apply length_filter. }
    split; [done|].
    intros l Hl.
    destruct (dict_get (record_at h l) field) as [x|] eqn:Hx; [|done].
    exfalso. apply (Habsent m Hm).
    apply elem_of_all_keys. exists l. split; [done|].
    apply elem_of_keys_get. by rewrite Hx.
Qed.

Lemma filter_by_value_null_witness :
  exists child h1,
    filter_by_value 0%nat "position_id" JNone staff_heap = (inr child, h1) /\
    _data (dataset_at h1 child) = [3%nat].
Proof.
  destruct (filter_by_value_null staff_heap 0%nat "position_id" int_t)
    as (_ & _ & Hok).
  - vm_compute. reflexivity.
  - discriminate.
  - destruct (Hok ({["name" := str_t]}, ∅)) as (child & h1 & Hrun & Hdata & _).
    + vm_compute. reflexivity.
    + exists child, h1. split; [exact Hrun|]. exact Hdata.
Defined.

(** C5 as stated: that the filter returns the records with an absent or
    null field fails when such a record holds the field explicitly null: the
    selection then has a field that is entirely null, which the constructor
    rejects. *)
Lemma filter_by_null_raises :
  absent_or_null (record_at card_heap 0%nat) "credit_card_number" = true /\
  field_type_mapping (dataset_at card_heap 0%nat) !! "credit_card_number"
  = Some int_t /\
  filter_by_value 0%nat "credit_card_number" JNone card_heap
  = (inl DataLoadException, card_heap).
Proof. vm_compute. done. Qed.

(** ** Filtering on a list field *)

Lemma types_in_list_exn (h : heap) (data : list loc) (field : string) (e : exn) :
  types_in_list h data field = inl e -> e = KeyError \/ e = TypeError.
Proof.
  induction data as [|l data IH]; [done|].
  simpl types_in_list.
  destruct (dict_get (record_at h l) field) as [x|]; [|intros [= <-]; eauto].
  destruct (entry_types x) as [e'|ts] eqn:Hx.
  - intros [= <-]. right. destruct x as [[]|]; cbn in Hx; congruence.
  - destruct (types_in_list h data field) as [e'|ts']; [|done].
    intros [= <-]. by apply IH.
Qed.

Lemma validate_field_exn (h : heap) (data : list loc) (field : string) (e : exn) :
  validate_field h data field = inl e -> e <> DataSetException.
Proof.
  unfold validate_field.
  destruct (1 <? length (value_types h data field))%nat; [by intros [= <-]|].
  destruct (value_types h data field) as [|t vts]; [by intros [= <-]|].
  destruct (bool_decide (t = dict_t)); [by intros [= <-]|].
  destruct (bool_decide (t = list_t)); [|done].
  destruct (types_in_list h data field) as [e'|ts] eqn:Hts.
  - intros [= <-]. by destruct (types_in_list_exn _ _ _ _ Hts) as [-> | ->].
  - destruct (remove_dups ts) as [|? [|? ?]]; try done; by intros [= <-].
Qed.

Lemma validate_loop_exn (h : heap) (data : list loc) (fs : list string)
    (fm lm : gmap string pytype) (e : exn) :
  validate_loop h data fs fm lm = inl e -> e <> DataSetException.
Proof.
  revert fm lm. induction fs as [|f fs IH]; intros fm lm; [done|].
  cbn. destruct (validate_field h data f) as [e'|[t et]] eqn:Hf.
  - intros [= <-]. by eapply validate_field_exn.
  - apply IH.
Qed.

Lemma select_containing_lists (h : heap) (field : string) (value : json)
    (data : list loc) :
  (forall l, l ∈ data ->
             dict_get (record_at h l) field = None \/
             exists xs, dict_get (record_at h l) field = Some (Plain (JList xs))) ->
  select_containing h field value data
  = inr (filter (fun l => list_contains (record_at h l) field value = true) data).
Proof.
  induction data as [|l data IH]; intros Hlists; [done|].
  cbn [select_containing]. rewrite IH.
  2:{ intros l' Hl'. apply Hlists. by apply list_elem_of_further. }
  rewrite filter_cons.
  destruct (Hlists l) as [Hl | [xs Hl]]; [apply list_elem_of_here | |].
  - assert (list_contains (record_at h l) field value = false) as Hc.
    { unfold list_contains. by rewrite Hl. }
    rewrite Hl, Hc. cbn. by rewrite decide_False.
  - assert (list_contains (record_at h l) field value
            = existsb (fun e => is_or_eq e value) xs) as Hc.
    { unfold list_contains. by rewrite Hl. }
    rewrite Hl, Hc. cbn.
    destruct (existsb (fun e => is_or_eq e value) xs).
    + by rewrite decide_True.
    + by rewrite decide_False.
Qed.

(** C4, as the code has it.  On a list field, every stored value of which is
    a list (or absent), [filter_by_value(field, value)] selects exactly the
    records whose list contains [value] (membership under [==]), in their
    order, and hands the selection to the constructor.  The type of [value]
    is not compared with the element type of the lists: whatever it is, the
    filter never raises [DataSetException].  It raises only what the
    validation of the selection raises, leaving the store unchanged; when it
    returns, the records of the new dataset are exactly the selected ones;
    and it does return, with an empty dataset, when no list contains the
    value. *)
Theorem filter_by_value_membership
    (h : heap) (self : loc) (field : string) (value : json) :
  let ds := dataset_at h self in
  let selected :=
    filter (fun l => list_contains (record_at h l) field value = true)
           (_data ds) in
  field_type_mapping ds !! field = Some list_t ->
  (forall l, l ∈ _data ds ->
             dict_get (record_at h l) field = None \/
             exists xs, dict_get (record_at h l) field = Some (Plain (JList xs))) ->
  filter_by_value self field value h = filtered h self selected /\
  (forall e h1, filter_by_value self field value h = (inl e, h1) ->
                e <> DataSetException /\ h1 = h) /\
  (forall child h1, filter_by_value self field value h = (inr child, h1) ->
                    _data (dataset_at h1 child) = selected) /\
  (selected = [] ->
   exists child h1, filter_by_value self field value h = (inr child, h1) /\
                    __len__ h1 child = 0%nat).
Proof.
  intros ds selected Hty Hlists.
  assert (filter_by_value self field value h = filtered h self selected) as Hrun.
  { rewrite filter_by_value_list_field by done.
    fold ds. by rewrite select_containing_lists. }
  split; [done|]. rewrite Hrun. split; [|split].
  - intros e h1. unfold filtered.
    destruct (_validate_data_types h selected _) as [e'|m] eqn:Hv; [|done].
    intros [= <- <-]. split; [|done]. by eapply validate_loop_exn.
  - intros child h1 Hf. by apply filtered_new_dataset in Hf as (_ & _ & ? & _).
  - intros Hnil.
    destruct (filtered h self selected) as [[e|child] h1] eqn:Hf.
    { rewrite Hnil in Hf. by vm_compute in Hf. }
    exists child, h1. split; [done|].
    apply filtered_new_dataset in Hf as (_ & _ & Hdata & _).
    unfold __len__. by rewrite Hdata, Hnil.
Qed.

Lemma filter_by_value_membership_witness :
  let h1 := snd (filter_by_value 0%nat "skills" (JStr "sql") skills_heap) in
  _data (dataset_at h1 1%nat) = [0%nat; 2%nat].
Proof.
  intros h1.
  destruct (filter_by_value_membership skills_heap 0%nat "skills" (JStr "sql"))
    as (_ & _ & Hdata & _).
  - vm_compute. reflexivity.
  - intros l Hl. right. vm_compute in Hl.
    repeat (apply elem_of_cons in Hl as [-> | Hl]; [vm_compute; eauto|]).
    by apply elem_of_nil in Hl.
  - apply (Hdata 1%nat h1). vm_compute. reflexivity.
Defined.

(** C4 as stated: that a value of the wrong type makes the filter on a list
    field fail with the query error does not hold: on the list of strings
    ["skills"] the integer 23 is accepted, and the result is an empty
    dataset. *)
Lemma filter_list_field_wrong_type :
  field_type_mapping (dataset_at skills_heap 0%nat) !! "skills" = Some list_t /\
  list_field_type_mapping (dataset_at skills_heap 0%nat) !! "skills"
  = Some str_t /\
  type_of_json (JInt 23) <> str_t /\
  exists child h1,
    filter_by_value 0%nat "skills" (JInt 23) skills_heap = (inr child, h1) /\
    _data (dataset_at h1 child) = [].
Proof.
  split; [by vm_compute|]. split; [by vm_compute|]. split; [discriminate|].
  eexists _, _. split; vm_compute; reflexivity.
Qed.

(** ** Filtering twice *)

(** the functions that read records depend on the store through its records
    only *)
Lemma record_at_ext (h h' : heap) (l : loc) :
  records h' = records h -> record_at h' l = record_at h l.
Proof. unfold record_at. by intros ->. Qed.

Lemma all_keys_ext (h h' : heap) (ls : list loc) :
  records h' = records h -> all_keys h' ls = all_keys h ls.
Proof.
  intros Hr. unfold all_keys. f_equal. apply map_ext. intros l.
  by rewrite (record_at_ext h h').
Qed.

Lemma value_types_ext (h h' : heap) (ls : list loc) (field : string) :
  records h' = records h -> value_types h' ls field = value_types h ls field.
Proof.
  intros Hr. unfold value_types. do 2 f_equal. apply map_ext. intros l.
  by rewrite (record_at_ext h h').
Qed.

Lemma types_in_list_ext (h h' : heap) (ls : list loc) (field : string) :
  records h' = records h -> types_in_list h' ls field = types_in_list h ls field.
Proof.
  intros Hr. induction ls as [|l ls IH]; [done|].
  cbn. by rewrite IH, (record_at_ext h h').
Qed.

Lemma validate_field_ext (h h' : heap) (ls : list loc) (field : string) :
  records h' = records h ->
  validate_field h' ls field = validate_field h ls field.
Proof.
  intros Hr. unfold validate_field.
  by rewrite (value_types_ext h h'), (types_in_list_ext h h').
Qed.

Lemma validate_data_types_ext (h h' : heap) (ls : list loc) (fs : list string) :
  records h' = records h ->
  _validate_data_types h' ls fs = _validate_data_types h ls fs.
Proof.
  intros Hr. unfold _validate_data_types. generalize (∅ : gmap string pytype) at 1 3.
  generalize (∅ : gmap string pytype).
  induction fs as [|f fs IH]; intros lm fm; [done|].
  cbn. rewrite (validate_field_ext h h') by done.
  destruct (validate_field h ls f) as [e|[t et]]; [done|]. apply IH.
Qed.

Lemma select_equal_ext (h h' : heap) (field : string) (value : json)
    (ls : list loc) :
  records h' = records h ->
  select_equal h' field value ls = select_equal h field value ls.
Proof.
  intros Hr. unfold select_equal. apply list_filter_iff. intros l.
  by rewrite (record_at_ext h h').
Qed.

Lemma select_containing_ext (h h' : heap) (field : string) (value : json)
    (ls : list loc) :
  records h' = records h ->
  select_containing h' field value ls = select_containing h field value ls.
Proof.
  intros Hr. induction ls as [|l ls IH]; [done|].
  cbn. by rewrite IH, (record_at_ext h h').
Qed.

Lemma select_equal_again (h : heap) (field : string) (value : json)
    (ls : list loc) :
  select_equal h field value (select_equal h field value ls)
  = select_equal h field value ls.
Proof.
  unfold select_equal. rewrite list_filter_filter.
  apply list_filter_iff. tauto.
Qed.

Lemma select_containing_again (h : heap) (field : string) (value : json)
    (data ls : list loc) :
  select_containing h field value data = inr ls ->
  select_containing h field value ls = inr ls.
Proof.
  revert ls. induction data as [|l data IH]; intros ls.
  { by intros [= <-]. }
  cbn [select_containing].
  destruct (py_in value _) as [e|b] eqn:Hin; [done|].
  destruct (select_containing h field value data) as [e|ls'] eqn:Hsel; [done|].
  intros [= <-]. destruct b; [|by apply IH].
  cbn [select_containing]. rewrite Hin. by rewrite (IH ls').
Qed.

Lemma select_containing_subset (h : heap) (field : string) (value : json)
    (data ls : list loc) (l : loc) :
  select_containing h field value data = inr ls -> l ∈ ls -> l ∈ data.
Proof.
  revert ls. induction data as [|l0 data IH]; intros ls.
  { intros [= <-]. by intros ?%elem_of_nil. }
  cbn [select_containing].
  destruct (py_in value _) as [e|b]; [done|].
  destruct (select_containing h field value data) as [e|ls'] eqn:Hsel; [done|].
  intros [= <-] Hl. destruct b.
  - apply elem_of_cons in Hl as [-> | Hl]; [apply list_elem_of_here|].
    apply list_elem_of_further. by apply (IH ls').
  - apply list_elem_of_further. by apply (IH ls').
Qed.

(** a filter that returns has passed the type test *)
Lemma filter_by_value_passed
    (h h1 : heap) (self child : loc) (field : string) (value : json)
    (t : pytype) :
  field_type_mapping (dataset_at h self) !! field = Some t ->
  filter_by_value self field value h = (inr child, h1) ->
  t = list_t \/ value = JNone \/ type_of_json value = t.
Proof.
  intros Hty. unfold filter_by_value. unfold bind at 1. unfold reading at 1.
  rewrite Hty.
  destruct (decide (t = list_t)) as [|Hlist]; [by left|].
  destruct (decide (type_of_json value = t)) as [|Hneq]; [by (right; right)|].
  rewrite (bool_decide_eq_true_2 _ Hlist), (bool_decide_eq_true_2 _ Hneq).
  destruct value; try done. intros _. by (right; left).
Qed.

Lemma filtered_again (h h1 : heap) (self child : loc) (ls : list loc)
    (m : gmap string pytype * gmap string pytype) :
  records h1 = records h ->
  _validate_data_types h ls (sorted (all_keys h ls)) = inr m ->
  exists grandchild h2,
    filtered h1 child ls = (inr grandchild, h2) /\
    _data (dataset_at h2 grandchild) = ls.
Proof.
  intros Hr Hv. unfold filtered.
  rewrite (all_keys_ext h h1), (validate_data_types_ext h h1) by done.
  rewrite Hv. eexists _, _. split; [reflexivity|].
  by rewrite dataset_at_app_new.
Qed.

(** C8, as the code has it.  Let [filter_by_value(field, value)] return a
    dataset, on a dataset whose stored values for the field have the
    inferred type of the field (or are null).  The schema of the result is
    inferred anew from the selected records:
    - if the field is no longer in it, the same filter applied to the result
      raises [KeyError]; this is so in particular when the result has no
      record;
    - if the field is still in it, the same filter applied to the result
      returns a dataset with exactly the same records, in the same order. *)
Theorem filter_by_value_twice
    (h h1 : heap) (self child : loc) (field : string) (value : json)
    (t : pytype) :
  field_type_mapping (dataset_at h self) !! field = Some t ->
  (forall l, l ∈ _data (dataset_at h self) ->
             type_of (get (record_at h l) field) = t \/
             type_of (get (record_at h l) field) = NoneType) ->
  filter_by_value self field value h = (inr child, h1) ->
  (field_type_mapping (dataset_at h1 child) !! field = None ->
   filter_by_value child field value h1 = (inl KeyError, h1)) /\
  (_data (dataset_at h1 child) = [] ->
   field_type_mapping (dataset_at h1 child) !! field = None) /\
  (field_type_mapping (dataset_at h1 child) !! field <> None ->
   exists grandchild h2,
     filter_by_value child field value h1 = (inr grandchild, h2) /\
     _data (dataset_at h2 grandchild) = _data (dataset_at h1 child)).
Proof.
  intros Hty Htypes Hrun.
  pose proof (filter_by_value_passed _ _ _ _ _ _ _ Hty Hrun) as Hpassed.
  apply filter_by_value_success in Hrun
    as (ls & m & Hv & Hsel & Hchild & _ & Hrec & _ & Hds).
  assert (dataset_at h1 child
          = mkDataSet (name (dataset_at h self)) ls (sorted (all_keys h ls))
                      (fst m) (snd m) (_dataset_relations (dataset_at h self)))
    as Hc.
  { unfold dataset_at at 1. rewrite Hds, Hchild.
    rewrite lookup_app_r by done. by rewrite Nat.sub_diag. }
  rewrite Hc. cbn [field_type_mapping _data].
  split; [|split].
  - intros Hnone. unfold filter_by_value, bind, reading. cbn.
    rewrite Hc. cbn. by rewrite Hnone.
  - intros ->. by apply (validated_mapping_dom h [] field m Hv), not_elem_of_nil.
  - intros Hsome.
    destruct (fst m !! field) as [t'|] eqn:Hm; [clear Hsome | done].
    assert (forall l, l ∈ ls -> l ∈ _data (dataset_at h self)) as Hsub.
    { intros l Hl. rewrite Hty in Hsel.
      destruct (bool_decide (Some t = Some list_t)).
      - by eapply select_containing_subset.
      - subst ls. by apply list_elem_of_filter in Hl as [_ ?]. }
    assert (t' = t) as ->.
    { destruct (decide (field ∈ all_keys h ls)) as [Hk | Hk].
      2:{ rewrite (validated_mapping_dom h ls field m Hv Hk) in Hm. done. }
      destruct (validated_field_has_value h ls field m Hv Hk)
        as (t'' & Hm' & Hvt).
      assert (t'' = t') as -> by congruence.
      assert (t' ∈ value_types h ls field) as Hin.
      { rewrite Hvt. apply list_elem_of_here. }
      apply elem_of_value_types in Hin as (Hne & l & Hl & Htype).
      destruct (Htypes l (Hsub l Hl)); congruence. }
    assert (field_type_mapping (dataset_at h1 child) !! field = Some t) as Hty1.
    { by rewrite Hc. }
    assert (_data (dataset_at h1 child) = ls) as Hdata1.
    { by rewrite Hc. }
    rewrite Hty in Hsel.
    destruct (decide (t = list_t)) as [-> | Hlist].
    + rewrite bool_decide_eq_true_2 in Hsel by done.
      rewrite (filter_by_value_list_field h1 child field value Hty1).
      rewrite Hdata1, (select_containing_ext h h1) by done.
      rewrite (select_containing_again _ _ _ _ _ Hsel).
      by eapply filtered_again.
    + rewrite bool_decide_eq_false_2 in Hsel by congruence.
      rewrite (filter_by_value_plain_field h1 child field value t Hty1 Hlist)
        by (destruct Hpassed as [? | ?]; [done | tauto]).
      rewrite Hdata1, (select_equal_ext h h1) by done.
      subst ls. rewrite select_equal_again.
      by eapply filtered_again.
Qed.

Lemma filter_by_value_twice_witness :
  let h1 := snd (filter_by_value 0%nat "name" (JStr "Larry") people_heap) in
  exists grandchild h2,
    filter_by_value 1%nat "name" (JStr "Larry") h1 = (inr grandchild, h2) /\
    _data (dataset_at h2 grandchild) = _data (dataset_at h1 1%nat).
Proof.
  intros h1.
  destruct (filter_by_value_twice people_heap h1 0%nat 1%nat "name"
              (JStr "Larry") str_t) as (_ & _ & Hagain).
  - vm_compute. reflexivity.
  - intros l Hl. left. vm_compute in Hl.
    repeat (apply elem_of_cons in Hl as [-> | Hl]; [vm_compute; reflexivity|]).
    by apply elem_of_nil in Hl.
  - vm_compute. reflexivity.
  - apply Hagain. vm_compute. discriminate.
Defined.

(** C8 as stated fails; filtering twice with the same arguments is not
    always possible: a filter that selects no record returns an empty
    dataset, whose schema has no field, and the second filter raises
    [KeyError]. *)
Lemma filter_twice_raises :
  let h1 := snd (filter_by_value 0%nat "name" (JStr "Bob") people_heap) in
  filter_by_value 0%nat "name" (JStr "Bob") people_heap = (inr 1%nat, h1) /\
  filter_by_value 1%nat "name" (JStr "Bob") h1 = (inl KeyError, h1).
Proof. vm_compute. done. Qed.

(** ** What validation accepts and rejects *)

Section field_validation.
Variable h : heap.
Variable f : string.

Lemma value_types_NoDup (ls : list loc) : NoDup (value_types h ls f).
Proof. apply NoDup_remove_dups. Qed.

Lemma elem_of_value_types_at (ls : list loc) (t : pytype) :
  t ∈ value_types h ls f <->
  t <> NoneType /\ exists l, l ∈ ls /\ type_at h f l = t.
Proof. apply elem_of_value_types. Qed.

Lemma value_types_nil (ls : list loc) :
  value_types h ls f = [] <-> entirely_null h ls f.
Proof.
  split.
  - intros Hnil l Hl.
    destruct (decide (type_at h f l = NoneType)) as [|Hne]; [done|].
    assert (type_at h f l ∈ value_types h ls f) as Hin.
    { apply elem_of_value_types_at. eauto. }
    rewrite Hnil in Hin. by apply elem_of_nil in Hin.
  - intros Hnull.
    destruct (value_types h ls f) as [|t vts] eqn:Hvts; [done|].
    assert (t ∈ value_types h ls f) as Hin.
    { rewrite Hvts. apply list_elem_of_here. }
    apply elem_of_value_types_at in Hin as (Hne & l & Hl & Ht).
    by rewrite (Hnull l Hl) in Ht.
Qed.

Lemma value_types_single (ls : list loc) (t : pytype) :
  value_types h ls f = [t] <-> single_type h ls f t.
Proof.
  split.
  - intros Hvts.
    assert (t ∈ value_types h ls f) as Hin.
    { rewrite Hvts. apply list_elem_of_here. }
    apply elem_of_value_types_at in Hin as (Hne & Hex).
    split; [done|]. split; [done|].
    intros l Hl.
    destruct (decide (type_at h f l = NoneType)) as [|Hnn]; [by right|].
    left.
    assert (type_at h f l ∈ value_types h ls f) as Hin.
    { apply elem_of_value_types_at. eauto. }
    rewrite Hvts in Hin. by apply list_elem_of_singleton in Hin.
  - intros (Hne & (l & Hl & Ht) & Hall).
    assert (forall t', t' ∈ value_types h ls f -> t' = t) as Hsame.
    { intros t' (Hne' & l' & Hl' & Ht')%elem_of_value_types_at.
      destruct (Hall l' Hl'); congruence. }
    assert (t ∈ value_types h ls f) as Hin.
    { apply elem_of_value_types_at. eauto. }
    pose proof (value_types_NoDup ls) as Hnd.
    destruct (value_types h ls f) as [|t1 [|t2 vts]].
    + by apply elem_of_nil in Hin.
    + f_equal. apply Hsame, list_elem_of_here.
    + exfalso. apply NoDup_cons in Hnd as [Hnotin _]. apply Hnotin.
      rewrite (Hsame t1) by apply list_elem_of_here.
      rewrite <- (Hsame t2) at 1
        by apply list_elem_of_further, list_elem_of_here.
      apply list_elem_of_here.
Qed.

Lemma value_types_many (ls : list loc) :
  (1 < length (value_types h ls f))%nat <-> mixed_types h ls f.
Proof.
  split.
  - intros Hlen. pose proof (value_types_NoDup ls) as Hnd.
    destruct (value_types h ls f) as [|t1 [|t2 vts]] eqn:Hvts;
      [cbn in Hlen; lia | cbn in Hlen; lia |].
    assert (t1 ∈ value_types h ls f) as H1.
    { rewrite Hvts. apply list_elem_of_here. }
    assert (t2 ∈ value_types h ls f) as H2.
    { rewrite Hvts. apply list_elem_of_further, list_elem_of_here. }
    apply elem_of_value_types_at in H1 as (Hn1 & l1 & Hl1 & Ht1).
    apply elem_of_value_types_at in H2 as (Hn2 & l2 & Hl2 & Ht2).
    exists l1, l2. rewrite Ht1, Ht2. repeat split; try done.
    intros ->. apply NoDup_cons in Hnd as [Hnotin _].
    apply Hnotin, list_elem_of_here.
  - intros (l1 & l2 & Hl1 & Hl2 & Hn1 & Hn2 & Hne).
    assert (type_at h f l1 ∈ value_types h ls f) as H1.
    { apply elem_of_value_types_at. eauto. }
    assert (type_at h f l2 ∈ value_types h ls f) as H2.
    { apply elem_of_value_types_at. eauto. }
    destruct (value_types h ls f) as [|t1 [|t2 vts]]; [| |cbn; lia].
    + by apply elem_of_nil in H1.
    + apply list_elem_of_singleton in H1, H2. congruence.
Qed.

Lemma type_of_list (x : pyval) :
  type_of x = list_t -> exists xs, x = Plain (JList xs).
Proof. destruct x as [[]|]; try done. eauto. Qed.

Lemma type_of_none (x : pyval) : type_of x = NoneType -> x = Plain JNone.
Proof. by destruct x as [[]|]. Qed.

(** the loop over the lists of a list field: it goes through exactly when
    every record holds a list, and then collects the types of all
    elements *)
Lemma types_in_list_spec (ls : list loc) :
  (forall l, l ∈ ls -> type_at h f l = list_t \/ type_at h f l = NoneType) ->
  match types_in_list h ls f with
  | inr ts => list_everywhere h ls f /\
              forall et, et ∈ ts <-> element_type h ls f et
  | inl e => ~ list_everywhere h ls f /\ e <> DataLoadException
  end.
Proof.
  induction ls as [|l ls IH]; intros Htypes.
  { cbn. split.
    - by intros l ?%elem_of_nil.
    - intros et. split; [by intros ?%elem_of_nil|].
      by intros (l & xs & x & ?%elem_of_nil & _). }
  simpl types_in_list.
  assert (forall l', l' ∈ ls ->
                     type_at h f l' = list_t \/ type_at h f l' = NoneType)
    as Htypes'.
  { intros l' Hl'. by apply Htypes, list_elem_of_further. }
  specialize (IH Htypes').
  pose proof (Htypes l (list_elem_of_here _ _)) as Hl.
  unfold type_at, get in Hl.
  destruct (dict_get (record_at h l) f) as [x|] eqn:Hx.
  2:{ split; [|done]. intros Hall.
      destruct (Hall l (list_elem_of_here _ _)) as [xs Hxs]. congruence. }
  cbn in Hl. destruct Hl as [Hl | Hl].
  2:{ apply type_of_none in Hl as ->. cbn. split; [|done]. intros Hall.
      destruct (Hall l (list_elem_of_here _ _)) as [xs Hxs]. congruence. }
  apply type_of_list in Hl as [xs ->]. cbn [entry_types].
  destruct (types_in_list h ls f) as [e|ts].
  { destruct IH as [Hnot He]. split; [|done]. intros Hall. apply Hnot.
    intros l' Hl'. by apply Hall, list_elem_of_further. }
  destruct IH as [Hall Hts]. split.
  - intros l' [-> | Hl']%elem_of_cons; [eauto | by apply Hall].
  - intros et. rewrite elem_of_app, Hts. split.
    + intros [Hin | (l' & xs' & x' & Hl' & Hrest)].
      * apply list_elem_of_fmap in Hin as (x & -> & Hin).
        exists l, xs, x. split; [apply list_elem_of_here | done].
      * exists l', xs', x'. split; [by apply list_elem_of_further | done].
    + intros (l' & xs' & x' & [-> | Hl']%elem_of_cons & Hget & Hin & Het).
      * left. assert (xs' = xs) as -> by congruence.
        apply list_elem_of_fmap. eauto.
      * right. exists l', xs', x'. eauto.
Qed.
End field_validation.

Lemma NoDup_all_equal {A : Type} (l : list A) (x : A) :
  NoDup l -> x ∈ l -> (forall y, y ∈ l -> y = x) -> l = [x].
Proof.
  intros Hnd Hin Hall. destruct l as [|a [|b l]].
  - by apply elem_of_nil in Hin.
  - f_equal. apply Hall, list_elem_of_here.
  - exfalso. apply NoDup_cons in Hnd as [Hnotin _]. apply Hnotin.
    rewrite (Hall a) by apply list_elem_of_here.
    rewrite <- (Hall b) at 1 by apply list_elem_of_further, list_elem_of_here.
    apply list_elem_of_here.
Qed.

Section field_outcomes.
Variable h : heap.
Variable ls : list loc.
Variable f : string.

Lemma single_type_unique (t1 t2 : pytype) :
  single_type h ls f t1 -> single_type h ls f t2 -> t1 = t2.
Proof.
  intros H1%value_types_single H2%value_types_single. congruence.
Qed.

Lemma remove_dups_element_types (ts : list pytype) :
  (forall et, et ∈ ts <-> element_type h ls f et) ->
  (exists et, remove_dups ts = [et]) <-> one_element_type h ls f.
Proof.
  intros Hts. split.
  - intros [et Het]. exists et.
    assert (forall x, x ∈ ts <-> x = et) as Hin.
    { intros x. by rewrite <- elem_of_remove_dups, Het, list_elem_of_singleton. }
    split.
    + by apply Hts, Hin.
    + intros et' Het'. by apply Hin, Hts.
  - intros (et & Het & Huniq). exists et.
    apply NoDup_all_equal.
    + apply NoDup_remove_dups.
    + by apply elem_of_remove_dups, Hts.
    + intros y Hy. rewrite elem_of_remove_dups in Hy.
      apply Huniq. by apply Hts.
Qed.

(** what each outcome of the check of one field says about the records *)
Lemma validate_field_cases :
  match validate_field h ls f with
  | inr (t, _) => single_type h ls f t /\ field_accepted h ls f
  | inl DataLoadException => field_rejected h ls f
  | inl _ => single_type h ls f list_t /\ ~ list_everywhere h ls f
  end.
Proof.
  unfold validate_field.
  destruct (1 <? length (value_types h ls f))%nat eqn:Hlen.
  { apply Nat.ltb_lt in Hlen. right. left. by apply value_types_many. }
  apply Nat.ltb_ge in Hlen.
  destruct (value_types h ls f) as [|t [|t' vts]] eqn:Hvts;
    [ | | cbn in Hlen; lia ].
  { left. by apply value_types_nil. }
  apply value_types_single in Hvts.
  destruct (decide (t = dict_t)) as [-> | Hdict].
  { rewrite bool_decide_eq_true_2 by done. right. right. by left. }
  rewrite (bool_decide_eq_false_2 (t = dict_t)) by done.
  destruct (decide (t = list_t)) as [-> | Hlist].
  2:{ rewrite bool_decide_eq_false_2 by done. split; [done|].
      exists t. split; [done|]. split; [done|]. done. }
  rewrite bool_decide_eq_true_2 by done.
  pose proof (types_in_list_spec h f ls) as Hspec.
  destruct (types_in_list h ls f) as [e|ts].
  { destruct Hspec as [Hnot He]; [by apply Hvts|].
    destruct e; try done. }
  destruct Hspec as [Hall Hts]; [by apply Hvts|].
  pose proof (remove_dups_element_types ts Hts) as Hone.
  destruct (remove_dups ts) as [|et [|et' ts']] eqn:Hrd.
  - right. right. right. split; [done|]. split; [done|].
    intros Hx. apply Hone in Hx as [? ?]. done.
  - split; [done|]. exists list_t. split; [done|]. split; [done|].
    intros _. split; [done|]. apply Hone. eauto.
  - right. right. right. split; [done|]. split; [done|].
    intros Hx. apply Hone in Hx as [? ?]. done.
Qed.

Lemma rejected_not_accepted :
  field_rejected h ls f -> ~ field_accepted h ls f.
Proof.
  intros Hrej (t & Hsingle & Hdict & Hlist).
  pose proof Hsingle as Hvts%value_types_single.
  destruct Hrej as [Hnull | [Hmixed | [Hobj | (Hl & Hall & Hnone)]]].
  - apply value_types_nil in Hnull. congruence.
  - apply value_types_many in Hmixed. rewrite Hvts in Hmixed.
    cbn in Hmixed. lia.
  - by rewrite (single_type_unique _ _ Hsingle Hobj) in Hdict.
  - pose proof (single_type_unique _ _ Hsingle Hl) as ->.
    by destruct Hlist.
Qed.

Lemma incomplete_list_field :
  single_type h ls f list_t -> ~ list_everywhere h ls f ->
  ~ field_rejected h ls f /\ ~ field_accepted h ls f.
Proof.
  intros Hsingle Hnot.
  pose proof Hsingle as Hvts%value_types_single.
  split.
  - intros [Hnull | [Hmixed | [Hobj | (Hl & Hall & Hnone)]]].
    + apply value_types_nil in Hnull. congruence.
    + apply value_types_many in Hmixed. rewrite Hvts in Hmixed.
      cbn in Hmixed. lia.
    + by pose proof (single_type_unique _ _ Hsingle Hobj).
    + done.
  - intros (t & Ht & _ & Hlist).
    pose proof (single_type_unique _ _ Hsingle Ht) as <-.
    by destruct Hlist.
Qed.

(** the check of a field raises [DataLoadException] exactly for the
    reasons gathered in [field_rejected] ... *)
Lemma validate_field_rejected :
  validate_field h ls f = inl DataLoadException <-> field_rejected h ls f.
Proof.
  pose proof validate_field_cases as Hcases.
  split.
  - intros Hv. by rewrite Hv in Hcases.
  - intros Hrej.
    destruct (validate_field h ls f) as [e|[t et]].
    + destruct e; try done;
        destruct Hcases as [Hs Hn];
        by destruct (incomplete_list_field Hs Hn).
    + destruct Hcases as [_ Hacc]. by apply rejected_not_accepted in Hrej.
Qed.

(** ... and passes exactly the fields described by [field_accepted] *)
Lemma validate_field_accepted :
  (exists r, validate_field h ls f = inr r) <-> field_accepted h ls f.
Proof.
  pose proof validate_field_cases as Hcases.
  split.
  - intros [[t et] Hv]. rewrite Hv in Hcases. by destruct Hcases.
  - intros Hacc.
    destruct (validate_field h ls f) as [e|r]; [|eauto].
    exfalso. destruct e;
      try (destruct Hcases as [Hs Hn];
           by destruct (incomplete_list_field Hs Hn)).
    by apply rejected_not_accepted in Hcases.
Qed.
End field_outcomes.

(** ** The loop over the fields, and the sorted fields *)

Lemma validate_loop_raises (h : heap) (ls : list loc) (fs : list string)
    (fm lm : gmap string pytype) (e : exn) :
  validate_loop h ls fs fm lm = inl e <->
  exists pre f post,
    fs = pre ++ f :: post /\
    (forall f', f' ∈ pre -> exists r, validate_field h ls f' = inr r) /\
    validate_field h ls f = inl e.
Proof.
  revert fm lm. induction fs as [|f0 fs IH]; intros fm lm.
  { cbn. split; [done|]. intros (pre & f & post & Heq & _).
    by destruct pre. }
  cbn [validate_loop].
  destruct (validate_field h ls f0) as [e0|[t0 et0]] eqn:Hf0.
  - split.
    + intros [= <-]. exists [], f0, fs. split; [done|]. split; [|done].
      by intros f' ?%elem_of_nil.
    + intros (pre & f & post & Heq & Hpre & Hf).
      destruct pre as [|p pre]; cbn in Heq.
      * injection Heq as <- <-. congruence.
      * injection Heq as <- ->.
        destruct (Hpre f0) as [r Hr]; [apply list_elem_of_here | congruence].
  - rewrite IH. split.
    + intros (pre & f & post & -> & Hpre & Hf).
      exists (f0 :: pre), f, post. split; [done|]. split; [|done].
      intros f' [-> | Hf']%elem_of_cons; eauto.
    + intros (pre & f & post & Heq & Hpre & Hf).
      destruct pre as [|p pre]; cbn in Heq.
      * injection Heq as <- <-. congruence.
      * injection Heq as <- ->. exists pre, f, post.
        split; [done|]. split; [|done].
        intros f' Hf'. by apply Hpre, list_elem_of_further.
Qed.

Lemma validate_loop_returns (h : heap) (ls : list loc) (fs : list string)
    (fm lm : gmap string pytype) :
  (exists m, validate_loop h ls fs fm lm = inr m) <->
  (forall f, f ∈ fs -> exists r, validate_field h ls f = inr r).
Proof.
  revert fm lm. induction fs as [|f0 fs IH]; intros fm lm.
  { cbn. split; [by intros _ f ?%elem_of_nil | eauto]. }
  cbn [validate_loop].
  destruct (validate_field h ls f0) as [e0|[t0 et0]] eqn:Hf0.
  - split; [by intros [m ?]|].
    intros Hall. destruct (Hall f0) as [r Hr]; [apply list_elem_of_here|].
    congruence.
  - rewrite IH. split.
    + intros Hall f [-> | Hf]%elem_of_cons; eauto.
    + intros Hall f Hf. by apply Hall, list_elem_of_further.
Qed.

Lemma collect_keys_cases (h : heap) (elems : list pyobj) :
  (exists ls, elems = map ORecord ls) \/
  (collect_keys h elems = inl AttributeError /\
   exists x, x ∈ elems /\ forall l, x <> ORecord l).
Proof.
  induction elems as [|x elems IH]; [left; by exists []|].
  destruct x as [l|es| | | | |].
  - destruct IH as [[ls ->] | (He & y & Hy & Hny)].
    + left. by exists (l :: ls).
    + right. cbn. rewrite He. split; [done|].
      exists y. split; [by apply list_elem_of_further | done].
  - right. split; [done|]. exists (OList es).
    split; [apply list_elem_of_here | done].
  - right. split; [done|]. exists ONone.
    split; [apply list_elem_of_here | done].
  - right. split; [done|]. exists (OBool b).
    split; [apply list_elem_of_here | done].
  - right. split; [done|]. exists (OInt z).
    split; [apply list_elem_of_here | done].
  - right. split; [done|]. exists (OFloat f).
    split; [apply list_elem_of_here | done].
  - right. split; [done|]. exists (OStr s).
    split; [apply list_elem_of_here | done].
Qed.

Lemma map_ORecord_inj (ls ls' : list loc) :
  map ORecord ls = map ORecord ls' -> ls = ls'.
Proof.
  revert ls'. induction ls as [|l ls IH]; intros [|l' ls']; try done.
  cbn. intros [= -> Hrest]. f_equal. by apply IH.
Qed.

Lemma records_have_no_other (ls : list loc) (x : pyobj) :
  x ∈ map ORecord ls -> exists l, x = ORecord l.
Proof. intros (l & -> & _)%list_elem_of_fmap. eauto. Qed.

Lemma sorted_Sorted (ks : list string) : Sorted string_le (sorted ks).
Proof. apply Sorted_merge_sort, _. Qed.

Lemma sorted_NoDup (ks : list string) : NoDup (sorted ks).
Proof.
  unfold sorted. rewrite merge_sort_Permutation. apply NoDup_remove_dups.
Qed.

(** ** The constructor *)

Lemma init_without_source (h : heap) (nm : string)
    (json_path _parsed_data : option pyobj) :
  source json_path _parsed_data = None ->
  __init__ nm json_path _parsed_data h = (inl DataLoadException, h).
Proof.
  unfold source, __init__.
  destruct json_path as [d|], _parsed_data as [[]|]; done.
Qed.

Lemma init_not_a_list (h : heap) (nm : string)
    (json_path _parsed_data : option pyobj) (o : pyobj) :
  source json_path _parsed_data = Some o ->
  not_a_list o ->
  __init__ nm json_path _parsed_data h = (inl DataLoadException, h).
Proof.
  unfold source, __init__, not_a_list. intros Hsrc Hnl.
  destruct json_path as [d|], _parsed_data as [[l|es| | | | |]|]; cbn in *;
    simplify_eq; try done;
    match goal with
    | |- context [match ?x with ORecord _ => _ | _ => _ end] =>
        destruct x as [l'|es'| | | | |]; try done; by destruct (Hnl es')
    | _ => by destruct (Hnl es)
    end.
Qed.

Lemma init_list (h : heap) (nm : string)
    (json_path _parsed_data : option pyobj) (elems : list pyobj) :
  source json_path _parsed_data = Some (OList elems) ->
  __init__ nm json_path _parsed_data h =
  match collect_keys h elems with
  | inl e => (inl e, h)
  | inr ks =>
      if bool_decide (is_Some json_path)
         && existsb (String.eqb "_foreign_fields") (sorted ks)
      then (inl DataLoadException, h)
      else
        match _validate_data_types h (record_refs elems) (sorted ks) with
        | inl e => (inl e, h)
        | inr m =>
            (inr (length (datasets h)),
             mkHeap (records h) (relation_lists h ++ [[]])
                    (datasets h ++
                     [mkDataSet nm (record_refs elems) (sorted ks)
                                (fst m) (snd m) (length (relation_lists h))]))
        end
  end.
Proof.
  unfold source, __init__. intros Hsrc.
  destruct json_path as [d|], _parsed_data as [[]|]; cbn in Hsrc;
    simplify_eq;
    unfold bind, reading, _get_data_fields; cbn;
    destruct (collect_keys h elems) as [e|ks]; try done;
    destruct (existsb _ (sorted ks)); cbn; try done;
    destruct (_validate_data_types h (record_refs elems) (sorted ks));
    done.
Qed.

Lemma existsb_reserved (ks : list string) (k : string) :
  existsb (String.eqb k) ks = true <-> k ∈ ks.
Proof.
  rewrite existsb_exists. split.
  - intros (x & Hx & ->%String.eqb_eq). by apply list_elem_of_In.
  - intros Hk. exists k. split; [by apply list_elem_of_In|].
    apply String.eqb_refl.
Qed.

Lemma reserved_check (h : heap) (json_path : option pyobj) (ls : list loc) :
  bool_decide (is_Some json_path)
  && existsb (String.eqb "_foreign_fields") (sorted (all_keys h ls)) = true
  <-> reserved_in_raw h json_path ls.
Proof.
  unfold reserved_in_raw.
  rewrite andb_true_iff, bool_decide_eq_true, existsb_reserved, elem_of_sorted.
  done.
Qed.

Lemma first_failure_loop (h : heap) (ls : list loc) :
  _validate_data_types h ls (sorted (all_keys h ls)) = inl DataLoadException
  <-> first_failure_rejected h ls.
Proof.
  unfold _validate_data_types, first_failure_rejected.
  rewrite validate_loop_raises. split.
  - intros (pre & f & post & Heq & Hpre & Hf).
    exists pre, f, post. split; [done|]. split.
    + intros f' Hf'. by apply validate_field_accepted, Hpre.
    + by apply validate_field_rejected.
  - intros (pre & f & post & Heq & Hpre & Hf).
    exists pre, f, post. split; [done|]. split.
    + intros f' Hf'. by apply validate_field_accepted, Hpre.
    + by apply validate_field_rejected.
Qed.

Lemma all_accepted_loop (h : heap) (ls : list loc) :
  (exists m, _validate_data_types h ls (sorted (all_keys h ls)) = inr m) <->
  (forall f, f ∈ all_keys h ls -> field_accepted h ls f).
Proof.
  unfold _validate_data_types. rewrite validate_loop_returns. split.
  - intros Hall f Hf. by apply validate_field_accepted, Hall, elem_of_sorted.
  - intros Hall f Hf. by apply validate_field_accepted, Hall, elem_of_sorted.
Qed.

Lemma init_records (h : heap) (nm : string)
    (json_path _parsed_data : option pyobj) (ls : list loc) :
  source json_path _parsed_data = Some (OList (map ORecord ls)) ->
  __init__ nm json_path _parsed_data h =
  if bool_decide (is_Some json_path)
     && existsb (String.eqb "_foreign_fields") (sorted (all_keys h ls))
  then (inl DataLoadException, h)
  else
    match _validate_data_types h ls (sorted (all_keys h ls)) with
    | inl e => (inl e, h)
    | inr m =>
        (inr (length (datasets h)),
         mkHeap (records h) (relation_lists h ++ [[]])
                (datasets h ++ [built_dataset h nm ls m]))
    end.
Proof.
  intros Hsrc. rewrite (init_list h nm _ _ _ Hsrc).
  by rewrite collect_keys_records, record_refs_records.
Qed.

Lemma built_dataset_validated (h : heap) (nm : string) (ls : list loc)
    (m : gmap string pytype * gmap string pytype) (k : string) (t : pytype) :
  _validate_data_types h ls (sorted (all_keys h ls)) = inr m ->
  field_type_mapping (built_dataset h nm ls m) !! k = Some t ->
  single_type h ls k t.
Proof.
  intros Hv Hk. cbn in Hk.
  apply validate_loop_fields in Hv as [Hin Hout].
  destruct (decide (k ∈ sorted (all_keys h ls))) as [Hs | Hs].
  - destruct (Hin k Hs) as (t' & et & Hf & Hm).
    assert (t' = t) as -> by congruence.
    pose proof (validate_field_cases h ls k) as Hcases.
    rewrite Hf in Hcases. by destruct Hcases.
  - rewrite (Hout k Hs), lookup_empty in Hk. done.
Qed.

Lemma validate_field_other_exn (h : heap) (ls : list loc) (f : string)
    (e : exn) :
  validate_field h ls f = inl e ->
  e = DataLoadException \/ e = KeyError \/ e = TypeError.
Proof.
  unfold validate_field.
  destruct (1 <? length (value_types h ls f))%nat; [intros [= <-]; eauto|].
  destruct (value_types h ls f) as [|t vts]; [intros [= <-]; eauto|].
  destruct (bool_decide (t = dict_t)); [intros [= <-]; eauto|].
  destruct (bool_decide (t = list_t)); [|done].
  destruct (types_in_list h ls f) as [e'|ts] eqn:Hts.
  - intros [= <-]. right. by eapply types_in_list_exn.
  - destruct (remove_dups ts) as [|? [|? ?]]; try done; intros [= <-]; eauto.
Qed.

(** the check of a field raises something else than [DataLoadException]
    exactly on a list field for which some record holds no list *)
Lemma validate_field_incomplete (h : heap) (ls : list loc) (f : string) :
  (exists e, validate_field h ls f = inl e /\ e <> DataLoadException) <->
  single_type h ls f list_t /\ ~ list_everywhere h ls f.
Proof.
  pose proof (validate_field_cases h ls f) as Hcases.
  split.
  - intros (e & He & Hne). rewrite He in Hcases. by destruct e.
  - intros [Hs Hn].
    destruct (incomplete_list_field h ls f Hs Hn) as [Hrej Hacc].
    destruct (validate_field h ls f) as [e|[t et]].
    + exists e. split; [done|]. intros ->. done.
    + by destruct Hcases as [_ ?].
Qed.

Lemma first_failure_other (h : heap) (ls : list loc) :
  (exists e, _validate_data_types h ls (sorted (all_keys h ls)) = inl e /\
             e <> DataLoadException)
  <-> first_failure_incomplete h ls.
Proof.
  unfold _validate_data_types, first_failure_incomplete. split.
  - intros (e & (pre & f & post & Heq & Hpre & Hf)%validate_loop_raises & Hne).
    exists pre, f, post. split; [done|]. split.
    + intros f' Hf'. by apply validate_field_accepted, Hpre.
    + apply validate_field_incomplete. eauto.
  - intros (pre & f & post & Heq & Hpre & Hf).
    apply validate_field_incomplete in Hf as (e & He & Hne).
    exists e. split; [|done]. apply validate_loop_raises.
    exists pre, f, post. split; [done|]. split; [|done].
    intros f' Hf'. by apply validate_field_accepted, Hpre.
Qed.

Lemma validate_data_types_other_exn (h : heap) (ls : list loc)
    (fs : list string) (e : exn) :
  _validate_data_types h ls fs = inl e ->
  e = DataLoadException \/ e = KeyError \/ e = TypeError.
Proof.
  unfold _validate_data_types.
  intros (pre & f & post & _ & _ & Hf)%validate_loop_raises.
  by eapply validate_field_other_exn.
Qed.

(** C7, where the constructor breaks its own contract.  Its docstring
    promises [DataLoadException] for invalid data, and the claim says the
    same of data that is not a list of mappings.  The constructor tests
    only that the data is a list: when some element is not a mapping (a
    number, a string, [None], a list), collecting the keys raises
    [AttributeError].  And for a list field validation reads
    [record[field]], where everywhere else the code reads
    [record.get(field)]: when the first field that is not accepted is a list
    field that some record lacks, or holds as null, the constructor raises
    [KeyError] or [TypeError].  In both cases the store is left as it was. *)
Theorem init_raises_other_exceptions
    (h : heap) (nm : string) (json_path _parsed_data : option pyobj)
    (elems : list pyobj) :
  source json_path _parsed_data = Some (OList elems) ->
  let out := __init__ nm json_path _parsed_data h in
  ((exists x, x ∈ elems /\ forall l, x <> ORecord l) ->
   out = (inl AttributeError, h)) /\
  (forall ls,
     elems = map ORecord ls ->
     ~ reserved_in_raw h json_path ls ->
     first_failure_incomplete h ls ->
     out = (inl KeyError, h) \/ out = (inl TypeError, h)).
Proof.
  intros Hsrc out. subst out. split.
  - intros (x & Hx & Hnx). rewrite (init_list h nm _ _ _ Hsrc).
    destruct (collect_keys_cases h elems) as [[ls ->] | (He & _)].
    + apply records_have_no_other in Hx as [l ->]. by destruct (Hnx l).
    + by rewrite He.
  - intros ls -> Hraw Hinc. rewrite (init_records h nm _ _ ls Hsrc).
    pose proof (reserved_check h json_path ls) as Hres.
    destruct (bool_decide (is_Some json_path)
              && existsb (String.eqb "_foreign_fields")
                         (sorted (all_keys h ls))).
    { destruct Hraw. by apply Hres. }
    apply first_failure_other in Hinc as (e & He & Hne). rewrite He.
    destruct (validate_data_types_other_exn _ _ _ _ He) as [-> | [-> | ->]];
      [done | by left | by right].
Qed.

Lemma init_raises_other_exceptions_witness :
  __init__ "X" (Some number_list) None (mkHeap [] [] [])
  = (inl AttributeError, mkHeap [] [] []) /\
  (__init__ "Tagged" (Some (OList (map ORecord [0; 1]%nat))) None
            (mkHeap tagged_records [] [])
   = (inl KeyError, mkHeap tagged_records [] []) \/
   __init__ "Tagged" (Some (OList (map ORecord [0; 1]%nat))) None
            (mkHeap tagged_records [] [])
   = (inl TypeError, mkHeap tagged_records [] [])).
Proof.
  split.
  - refine (proj1 (init_raises_other_exceptions
                     (mkHeap [] [] []) "X" (Some number_list) None
                     [OInt 1] _) _).
    + reflexivity.
    + exists (OInt 1). split; [apply list_elem_of_here | done].
  - refine (proj2 (init_raises_other_exceptions
                     (mkHeap tagged_records [] []) "Tagged"
                     (Some (OList (map ORecord [0; 1]%nat))) None
                     (map ORecord [0; 1]%nat) _) [0; 1]%nat _ _ _).
    + reflexivity.
    + reflexivity.
    + intros [_ Hin]. vm_compute in Hin.
      repeat (apply elem_of_cons in Hin as [Hin | Hin]; [done|]).
      by apply elem_of_nil in Hin.
    + apply first_failure_other. exists KeyError. split; [|done].
      by vm_compute.
Defined.

(** * Further properties of the dataset *)

(** ** What a successful construction leaves in the store *)

Lemma init_success_shape
    (h h' : heap) (nm : string) (json_path _parsed_data : option pyobj)
    (d : loc) :
  __init__ nm json_path _parsed_data h = (inr d, h') ->
  exists ls m,
    source json_path _parsed_data = Some (OList (map ORecord ls)) /\
    ~ reserved_in_raw h json_path ls /\
    _validate_data_types h ls (sorted (all_keys h ls)) = inr m /\
    d = length (datasets h) /\
    h' = mkHeap (records h) (relation_lists h ++ [[]])
                (datasets h ++ [built_dataset h nm ls m]).
Proof.
  intros Hrun.
  destruct (source json_path _parsed_data) as [o|] eqn:Hsrc.
  2:{ by rewrite (init_without_source h nm _ _ Hsrc) in Hrun. }
  destruct o as [l|elems| | | | |].
  1,3-7: by rewrite (init_not_a_list h nm _ _ _ Hsrc) in Hrun.
  destruct (collect_keys_cases h elems) as [[ls ->] | (He & _)].
  2:{ by rewrite (init_list h nm _ _ _ Hsrc), He in Hrun. }
  rewrite (init_records h nm _ _ ls Hsrc) in Hrun.
  pose proof (reserved_check h json_path ls) as Hres.
  destruct (bool_decide (is_Some json_path)
            && existsb (String.eqb "_foreign_fields") (sorted (all_keys h ls)));
    [done|].
  destruct (_validate_data_types h ls (sorted (all_keys h ls))) as [e|m] eqn:Hv;
    [done|].
  injection Hrun as <- <-. exists ls, m.
  split; [done|]. split; [|done].
  intros Hr%Hres. done.
Qed.

(** The constructor only allocates.  When it returns, the records are as
    they were, every dataset object and every relation list that existed is
    still there unchanged, the new dataset sits at an address that was free,
    and its relation list is a new, empty list of its own.  Its length is
    the number of records it was given. *)
Theorem init_only_allocates
    (h h' : heap) (nm : string) (json_path _parsed_data : option pyobj)
    (d : loc) :
  __init__ nm json_path _parsed_data h = (inr d, h') ->
  let rl := _dataset_relations (dataset_at h' d) in
  records h' = records h /\
  (forall x ds, datasets h !! x = Some ds -> datasets h' !! x = Some ds) /\
  (forall x rs, relation_lists h !! x = Some rs ->
                relation_lists h' !! x = Some rs) /\
  datasets h !! d = None /\
  is_Some (datasets h' !! d) /\
  relation_lists h !! rl = None /\
  relation_lists h' !! rl = Some [] /\
  exists ls, source json_path _parsed_data = Some (OList (map ORecord ls)) /\
             _data (dataset_at h' d) = ls /\
             __len__ h' d = length ls.
Proof.
  intros (ls & m & Hsrc & _ & _ & -> & ->)%init_success_shape rl.
  subst rl. rewrite dataset_at_app_new. cbn.
  split; [done|]. split.
  { intros x ds Hx. by apply lookup_app_l_Some. }
  split.
  { intros x rs Hx. by apply lookup_app_l_Some. }
  split; [by apply lookup_ge_None|]. split.
  { rewrite lookup_app_r by done. rewrite Nat.sub_diag. by eexists. }
  split; [by apply lookup_ge_None|]. split.
  { rewrite lookup_app_r by done. by rewrite Nat.sub_diag. }
  exists ls. split; [done|]. split; [done|].
  unfold __len__. by rewrite dataset_at_app_new.
Qed.

Lemma init_only_allocates_witness :
  let h' := snd (__init__ "Positions" None
                   (Some (OList (map ORecord [4; 5]%nat))) staff_heap) in
  records h' = records staff_heap.
Proof.
  intros h'.
  refine (proj1 (init_only_allocates staff_heap h' "Positions" None
                   (Some (OList (map ORecord [4; 5]%nat))) 3%nat _)).
  vm_compute. reflexivity.
Defined.

(** ** The two type mappings of a constructed dataset *)

Lemma validate_field_list_part (h : heap) (ls : list loc) (f : string)
    (t : pytype) (o : option pytype) :
  validate_field h ls f = inr (t, o) ->
  (t = list_t <-> is_Some o) /\
  forall et, o = Some et ->
             list_everywhere h ls f /\ element_type h ls f et /\
             forall et', element_type h ls f et' -> et' = et.
Proof.
  intros Hv. pose proof (validate_field_ok h ls f t o Hv) as Hvts.
  apply value_types_single in Hvts as Hsingle.
  unfold validate_field in Hv. rewrite Hvts in Hv. cbn in Hv.
  destruct (bool_decide (t = dict_t)); [done|].
  destruct (decide (t = list_t)) as [-> | Hlist].
  2:{ rewrite bool_decide_eq_false_2 in Hv by done. injection Hv as <-.
      split; [|done]. split; [done | by intros [? ?]]. }
  rewrite bool_decide_eq_true_2 in Hv by done.
  pose proof (types_in_list_spec h f ls) as Hspec.
  destruct (types_in_list h ls f) as [e|ts]; [done|].
  destruct Hspec as [Hall Hts]; [by apply Hsingle|].
  destruct (remove_dups ts) as [|et0 [|et1 rest]] eqn:Hrd; try done.
  injection Hv as <-. split; [split; eauto|].
  intros et [= <-].
  assert (forall x, x ∈ ts <-> x = et0) as Hin.
  { intros x. by rewrite <- elem_of_remove_dups, Hrd, list_elem_of_singleton. }
  split; [done|]. split.
  - by apply Hts, Hin.
  - intros et' Het'. by apply Hin, Hts.
Qed.

Lemma validate_loop_list_fields (h : heap) (data : list loc) (fs : list string)
    (fm lm : gmap string pytype) (m : gmap string pytype * gmap string pytype) :
  validate_loop h data fs fm lm = inr m ->
  (forall f, f ∈ fs ->
             exists t o, validate_field h data f = inr (t, o) /\
                         snd m !! f = match o with
                                      | Some e => Some e
                                      | None => lm !! f
                                      end) /\
  (forall f, f ∉ fs -> snd m !! f = lm !! f).
Proof.
  revert fm lm. induction fs as [|f0 fs IH]; intros fm lm.
  { cbn. intros [= <-]. split; [|done]. by intros f ?%elem_of_nil. }
  cbn. destruct (validate_field h data f0) as [e|[t0 o0]] eqn:Hf0; [done|].
  intros Hloop. apply IH in Hloop as [Hin Hout]. split.
  - intros f Hf. destruct (decide (f ∈ fs)) as [Hfs | Hfs].
    + destruct (Hin f Hfs) as (t & o & Hv & Hm). exists t, o.
      split; [done|]. rewrite Hm. destruct o as [e|]; [done|].
      destruct (decide (f = f0)) as [-> | Hne].
      * assert (o0 = None) as -> by congruence. done.
      * destruct o0; [by rewrite lookup_insert_ne | done].
    + apply elem_of_cons in Hf as [-> | Hf]; [|done].
      exists t0, o0. split; [done|].
      rewrite Hout by done. destruct o0; [by rewrite lookup_insert_eq | done].
  - intros f Hf. apply not_elem_of_cons in Hf as [Hne Hf].
    rewrite Hout by done. destruct o0; [by rewrite lookup_insert_ne | done].
Qed.

(** The schema that a successful construction infers.  The fields that have
    a type are exactly the listed fields; the type of a field is never
    [NoneType] and never [dict], and some record holds a value of that type;
    and when no record carries a resolver-built mapping under the field, the
    type is one of bool, int, float, str and list. *)
Theorem constructed_schema
    (h h' : heap) (nm : string) (json_path _parsed_data : option pyobj)
    (d : loc) :
  __init__ nm json_path _parsed_data h = (inr d, h') ->
  let ds := dataset_at h' d in
  (forall k, is_Some (field_type_mapping ds !! k) <-> k ∈ fields ds) /\
  (forall k t,
     field_type_mapping ds !! k = Some t ->
     t <> NoneType /\ t <> dict_t /\
     exists l, l ∈ _data ds /\ type_of (get (record_at h' l) k) = t) /\
  (forall k t,
     field_type_mapping ds !! k = Some t ->
     (forall l g, l ∈ _data ds ->
                  dict_get (record_at h' l) k <> Some (Foreign g)) ->
     t ∈ [bool_t; int_t; float_t; str_t; list_t]).
Proof.
  intros (ls & m & _ & _ & Hv & -> & ->)%init_success_shape ds.
  subst ds. rewrite dataset_at_app_new.
  change (fields (built_dataset h nm ls m)) with (sorted (all_keys h ls)).
  change (field_type_mapping (built_dataset h nm ls m)) with (fst m).
  change (_data (built_dataset h nm ls m)) with ls.
  pose proof (validate_loop_fields _ _ _ _ _ _ Hv) as [Hin Hout].
  assert (forall k t, fst m !! k = Some t ->
                      single_type h ls k t /\ t <> dict_t) as Hty.
  { intros k t Hk.
    destruct (decide (k ∈ sorted (all_keys h ls))) as [Hs | Hs].
    2:{ rewrite (Hout k Hs), lookup_empty in Hk. done. }
    destruct (Hin k Hs) as (t' & et & Hf & Hm).
    assert (t' = t) as -> by congruence.
    pose proof (validate_field_cases h ls k) as Hcases.
    rewrite Hf in Hcases. destruct Hcases as [Hsingle (t0 & Ht0 & Hd & _)].
    split; [done|].
    by rewrite (single_type_unique h ls k _ _ Hsingle Ht0). }
  assert (forall l k, record_at
            (mkHeap (records h) (relation_lists h ++ [[]])
                    (datasets h ++ [built_dataset h nm ls m])) l
          = record_at h l) as Hrec by done.
  split; [|split].
  - intros k. split.
    + intros [t Hk].
      destruct (decide (k ∈ sorted (all_keys h ls))) as [Hs | Hs]; [done|].
      rewrite (Hout k Hs), lookup_empty in Hk. done.
    + intros Hs. destruct (Hin k Hs) as (t & et & _ & Hm). eauto.
  - intros k t Hk. destruct (Hty k t Hk) as [(Hnone & Hex & _) Hdict].
    split; [done|]. split; [done|]. done.
  - intros k t Hk Hplain.
    destruct (Hty k t Hk) as [(Hnone & (l & Hl & Ht) & _) Hdict].
    specialize (Hplain l).
    unfold type_at, get in Ht.
    change (record_at _ l) with (record_at h l) in Hplain.
    destruct (dict_get (record_at h l) k) as [[j|g]|]; cbn in Ht.
    + destruct j; cbn in Ht; subst t; try done;
        repeat (first [apply list_elem_of_here | apply list_elem_of_further]).
    + by destruct (Hplain g Hl).
    + by subst t.
Qed.

Lemma constructed_schema_witness :
  let h' := snd (__init__ "Positions" None
                   (Some (OList (map ORecord [4; 5]%nat))) staff_heap) in
  is_Some (field_type_mapping (dataset_at h' 3%nat) !! "title")
  <-> "title" ∈ fields (dataset_at h' 3%nat).
Proof.
  intros h'.
  refine (proj1 (constructed_schema staff_heap h' "Positions" None
                   (Some (OList (map ORecord [4; 5]%nat))) 3%nat _) "title").
  vm_compute. reflexivity.
Defined.

(** The element types of the list fields.  A field has an element type
    exactly when its type is list; every record then holds a list under
    that field, all elements of all those lists have that element type, and
    one of the lists is not empty. *)
Theorem constructed_list_fields
    (h h' : heap) (nm : string) (json_path _parsed_data : option pyobj)
    (d : loc) :
  __init__ nm json_path _parsed_data h = (inr d, h') ->
  let ds := dataset_at h' d in
  (forall k, is_Some (list_field_type_mapping ds !! k)
             <-> field_type_mapping ds !! k = Some list_t) /\
  (forall k et,
     list_field_type_mapping ds !! k = Some et ->
     (forall l, l ∈ _data ds ->
                exists xs, dict_get (record_at h' l) k = Some (Plain (JList xs)) /\
                           forall x, x ∈ xs -> type_of_json x = et) /\
     (exists l xs x, l ∈ _data ds /\
                     dict_get (record_at h' l) k = Some (Plain (JList xs)) /\
                     x ∈ xs)).
Proof.
  intros (ls & m & _ & _ & Hv & -> & ->)%init_success_shape ds.
  subst ds. rewrite dataset_at_app_new.
  change (field_type_mapping (built_dataset h nm ls m)) with (fst m).
  change (list_field_type_mapping (built_dataset h nm ls m)) with (snd m).
  change (_data (built_dataset h nm ls m)) with ls.
  pose proof (validate_loop_fields _ _ _ _ _ _ Hv) as [Hin Hout].
  pose proof (validate_loop_list_fields _ _ _ _ _ _ Hv) as [Hlin Hlout].
  assert (forall k et, snd m !! k = Some et ->
            exists t, validate_field h ls k = inr (t, Some et) /\
                      fst m !! k = Some t) as Hlist.
  { intros k et Hk.
    destruct (decide (k ∈ sorted (all_keys h ls))) as [Hs | Hs].
    2:{ rewrite (Hlout k Hs), lookup_empty in Hk. done. }
    destruct (Hlin k Hs) as (t & o & Hf & Hm).
    destruct (Hin k Hs) as (t' & o' & Hf' & Hm').
    assert (t' = t) as -> by congruence.
    exists t. split; [|done].
    destruct o as [e|]; [congruence|].
    rewrite Hm, lookup_empty in Hk. done. }
  split.
  - intros k. split.
    + intros [et Hk]. destruct (Hlist k et Hk) as (t & Hf & Hm).
      apply validate_field_list_part in Hf as [Hiff _].
      rewrite Hm. f_equal. apply Hiff. eauto.
    + intros Hk.
      destruct (decide (k ∈ sorted (all_keys h ls))) as [Hs | Hs].
      2:{ rewrite (Hout k Hs), lookup_empty in Hk. done. }
      destruct (Hlin k Hs) as (t & o & Hf & Hm).
      destruct (Hin k Hs) as (t' & o' & Hf' & Hm').
      assert (t = list_t) as -> by congruence.
      apply validate_field_list_part in Hf as [Hiff _].
      destruct Hiff as [[et ->] _]; [done|]. rewrite Hm. eauto.
  - intros k et Hk. destruct (Hlist k et Hk) as (t & Hf & _).
    apply validate_field_list_part in Hf as [_ Hpart].
    destruct (Hpart et eq_refl) as (Hall & (l & xs & x & Hl & Hget & Hx & _) & Huniq).
    split.
    + intros l' Hl'. destruct (Hall l' Hl') as [xs' Hxs'].
      exists xs'. split; [done|].
      intros x' Hx'. apply Huniq. exists l', xs', x'. eauto.
    + exists l, xs, x. eauto.
Qed.

Lemma constructed_list_fields_witness :
  let h' := snd (__init__ "People" None
                   (Some (OList (map ORecord [0; 1; 2]%nat)))
                   (mkHeap skills_records [] [])) in
  is_Some (list_field_type_mapping (dataset_at h' 0%nat) !! "skills")
  <-> field_type_mapping (dataset_at h' 0%nat) !! "skills" = Some list_t.
Proof.
  intros h'.
  refine (proj1 (constructed_list_fields (mkHeap skills_records [] []) h'
                   "People" None (Some (OList (map ORecord [0; 1; 2]%nat)))
                   0%nat _) "skills").
  vm_compute. reflexivity.
Defined.

(** ** More on filtering *)

Lemma filter_by_value_unknown_field
    (h : heap) (self : loc) (field : string) (value : json) :
  field_type_mapping (dataset_at h self) !! field = None ->
  filter_by_value self field value h = (inl KeyError, h).
Proof.
  intros Hty. unfold filter_by_value, bind, reading. cbn. by rewrite Hty.
Qed.

Lemma py_in_exn (v : json) (x : pyval) (e : exn) :
  py_in v x = inl e -> e = TypeError.
Proof.
  destruct x as [[]|g]; cbn; try (by intros [= <-]); try done.
  - destruct v; by intros [= <-].
  - destruct v; cbn; try done; by intros [= <-].
  - destruct v; cbn; try done; by intros [= <-].
Qed.

Lemma select_containing_exn (h : heap) (field : string) (v : json)
    (data : list loc) (e : exn) :
  select_containing h field v data = inl e -> e = TypeError.
Proof.
  induction data as [|l data IH]; [done|].
  cbn [select_containing].
  destruct (py_in v _) as [e'|b] eqn:Hin.
  - intros [= <-]. by eapply py_in_exn.
  - destruct (select_containing h field v data) as [e'|ls]; [|done].
    intros [= <-]. by apply IH.
Qed.

Lemma filtered_exn (h h1 : heap) (self : loc) (ls : list loc) (e : exn) :
  filtered h self ls = (inl e, h1) -> e <> DataSetException /\ h1 = h.
Proof.
  unfold filtered.
  destruct (_validate_data_types h ls (sorted (all_keys h ls))) as [e'|m] eqn:Hv;
    [|done].
  intros [= <- <-]. split; [|done]. by eapply validate_loop_exn.
Qed.

(** [filter_by_value] raises [DataSetException] in one case only: the field
    is in the schema with a type other than list, the value is not null,
    and the type of the value is not the type of the field. *)
Theorem filter_by_value_query_error
    (h : heap) (self : loc) (field : string) (value : json) :
  fst (filter_by_value self field value h) = inl DataSetException <->
  exists t, field_type_mapping (dataset_at h self) !! field = Some t /\
            t <> list_t /\ value <> JNone /\ type_of_json value <> t.
Proof.
  split.
  - destruct (field_type_mapping (dataset_at h self) !! field) as [t|] eqn:Hty.
    2:{ by rewrite filter_by_value_unknown_field. }
    destruct (decide (t = list_t)) as [-> | Hlist].
    { rewrite filter_by_value_list_field by done.
      destruct (select_containing h field value _) as [e|ls] eqn:Hsel.
      - cbn. intros [= ->]. by apply select_containing_exn in Hsel.
      - destruct (filtered h self ls) as [[e|c] h1] eqn:Hf; [|done].
        cbn. intros [= ->]. by apply filtered_exn in Hf as [? _]. }
    destruct (decide (type_of_json value = t)) as [Heq | Hneq].
    { rewrite (filter_by_value_plain_field h self field value t) by auto.
      destruct (filtered h self _) as [[e|c] h1] eqn:Hf; [|done].
      cbn. intros [= ->]. by apply filtered_exn in Hf as [? _]. }
    destruct value as [| | | | | | |] eqn:Hval;
      try (intros _; exists t; by repeat split).
    rewrite (filter_by_value_plain_field h self field JNone t) by auto.
    destruct (filtered h self _) as [[e|c] h1] eqn:Hf; [|done].
    cbn. intros [= ->]. by apply filtered_exn in Hf as [? _].
  - intros (t & Hty & Hlist & Hnone & Hneq).
    unfold filter_by_value, bind, reading. cbn. rewrite Hty.
    rewrite (bool_decide_eq_true_2 _ Hlist), (bool_decide_eq_true_2 _ Hneq).
    by destruct value.
Qed.

Lemma select_containing_selects (h : heap) (field : string) (v : json)
    (data ls : list loc) :
  select_containing h field v data = inr ls ->
  ls = filter (fun l => selects h list_t field v l = true) data.
Proof.
  revert ls. induction data as [|l data IH]; intros ls.
  { by intros [= <-]. }
  cbn [select_containing].
  assert (selects h list_t field v l
          = match py_in v (default (Plain (JList []))
                                   (dict_get (record_at h l) field)) with
            | inr b => b
            | inl _ => false
            end) as Hl.
  { unfold selects. by rewrite bool_decide_eq_true_2. }
  destruct (py_in v _) as [e|b]; [done|].
  destruct (select_containing h field v data) as [e|ls']; [done|].
  intros [= <-].
  rewrite (filter_cons (fun l => selects h list_t field v l = true)).
  rewrite <- (IH ls') by done. rewrite Hl.
  destruct b; [by rewrite decide_True | by rewrite decide_False].
Qed.

Lemma select_equal_selects (h : heap) (t : pytype) (field : string) (v : json)
    (data : list loc) :
  t <> list_t ->
  select_equal h field v data
  = filter (fun l => selects h t field v l = true) data.
Proof.
  intros Hlist. unfold select_equal. apply list_filter_iff. intros l.
  unfold selects. by rewrite bool_decide_eq_false_2.
Qed.

(** every successful filter, in terms of the test [selects] *)
Lemma filter_by_value_selected
    (h h1 : heap) (self child : loc) (field : string) (value : json) :
  filter_by_value self field value h = (inr child, h1) ->
  exists t,
    field_type_mapping (dataset_at h self) !! field = Some t /\
    filtered h self
      (filter (fun l => selects h t field value l = true)
              (_data (dataset_at h self)))
    = (inr child, h1).
Proof.
  intros Hrun.
  destruct (field_type_mapping (dataset_at h self) !! field) as [t|] eqn:Hty.
  2:{ by rewrite filter_by_value_unknown_field in Hrun. }
  exists t. split; [done|].
  pose proof (filter_by_value_passed _ _ _ _ _ _ _ Hty Hrun) as Hpassed.
  destruct (decide (t = list_t)) as [-> | Hlist].
  - rewrite filter_by_value_list_field in Hrun by done.
    destruct (select_containing h field value _) as [e|ls] eqn:Hsel; [done|].
    by rewrite <- (select_containing_selects _ _ _ _ _ Hsel).
  - assert (value = JNone \/ type_of_json value = t) as Hval.
    { destruct Hpassed as [? | ?]; [done | tauto]. }
    rewrite (filter_by_value_plain_field h self field value t Hty Hlist Hval)
      in Hrun.
    by rewrite <- (select_equal_selects h t) by done.
Qed.

Lemma selects_ext (h h' : heap) (t : pytype) (field : string) (value : json)
    (l : loc) :
  records h' = records h ->
  selects h' t field value l = selects h t field value l.
Proof. intros Hr. unfold selects. by rewrite (record_at_ext h h'). Qed.

Lemma filtered_parent_kept (h h1 : heap) (self child : loc) (ls : list loc) :
  (self < length (datasets h))%nat ->
  filtered h self ls = (inr child, h1) ->
  dataset_at h1 self = dataset_at h self /\ child <> self.
Proof.
  intros Hself. unfold filtered.
  destruct (_validate_data_types h ls (sorted (all_keys h ls))) as [e|m];
    [done|].
  intros [= <- <-]. split; [|lia].
  unfold dataset_at. cbn. by rewrite lookup_app_l.
Qed.

(** The dataset that [filter_by_value] returns holds exactly the records of
    its parent that pass the test, the very same record objects in the same
    order, under the parent's name; it is a new object, and neither the
    records nor the parent are changed by the filter. *)
Theorem filter_by_value_selects_exactly
    (h h1 : heap) (self child : loc) (field : string) (value : json) :
  filter_by_value self field value h = (inr child, h1) ->
  exists t,
    field_type_mapping (dataset_at h self) !! field = Some t /\
    _data (dataset_at h1 child)
    = filter (fun l => selects h t field value l = true)
             (_data (dataset_at h self)) /\
    sublist (_data (dataset_at h1 child)) (_data (dataset_at h self)) /\
    (__len__ h1 child <= __len__ h self)%nat /\
    name (dataset_at h1 child) = name (dataset_at h self) /\
    records h1 = records h /\
    dataset_at h1 self = dataset_at h self /\
    child <> self.
Proof.
  intros (t & Hty & Hf)%filter_by_value_selected.
  exists t. split; [done|].
  pose proof (dataset_at_valid _ _ _ _ Hty) as Hself.
  destruct (filtered_parent_kept _ _ _ _ _ Hself Hf) as [Hparent Hne].
  apply filtered_new_dataset in Hf as (_ & Hrec & Hdata & Hname & _).
  rewrite Hdata. split; [done|]. split; [apply sublist_filter|].
  split.
  { unfold __len__. rewrite Hdata. apply length_filter. }
  done.
Qed.

Lemma filter_by_value_selects_exactly_witness :
  let h1 := snd (filter_by_value 0%nat "name" (JStr "Larry") staff_heap) in
  exists t,
    field_type_mapping (dataset_at staff_heap 0%nat) !! "name" = Some t /\
    _data (dataset_at h1 3%nat)
    = filter (fun l => selects staff_heap t "name" (JStr "Larry") l = true)
             (_data (dataset_at staff_heap 0%nat)).
Proof.
  intros h1.
  destruct (filter_by_value_selects_exactly staff_heap h1 0%nat 3%nat "name"
              (JStr "Larry")) as (t & Hty & Hdata & _).
  - vm_compute. reflexivity.
  - exists t. split; [exact Hty | exact Hdata].
Defined.

(** ** Filters in sequence *)

Lemma filtered_child_type
    (h h1 : heap) (self child : loc) (ls : list loc) (k : string)
    (t t' : pytype) :
  filtered h self ls = (inr child, h1) ->
  (forall l, l ∈ ls -> l ∈ _data (dataset_at h self)) ->
  consistent h self k ->
  field_type_mapping (dataset_at h self) !! k = Some t ->
  field_type_mapping (dataset_at h1 child) !! k = Some t' ->
  t' = t.
Proof.
  intros Hf Hsub Hcons Hty Hty'.
  apply filtered_new_dataset in Hf as (_ & _ & _ & _ & _ & m & Hv & Hm).
  rewrite Hm in Hty'.
  destruct (decide (k ∈ all_keys h ls)) as [Hk | Hk].
  2:{ rewrite (validated_mapping_dom h ls k m Hv Hk) in Hty'. done. }
  destruct (validated_field_has_value h ls k m Hv Hk) as (t'' & Hm' & Hvt).
  assert (t'' = t') as -> by congruence.
  assert (t' ∈ value_types h ls k) as Hin.
  { rewrite Hvt. apply list_elem_of_here. }
  apply elem_of_value_types in Hin as (Hne & l & Hl & Htype).
  destruct (Hcons t l Hty (Hsub l Hl)); congruence.
Qed.

Lemma two_filters_selected
    (h h1 h2 : heap) (self child grandchild : loc)
    (f g : string) (v w : json) :
  filter_by_value self f v h = (inr child, h1) ->
  filter_by_value child g w h1 = (inr grandchild, h2) ->
  exists tf tg,
    field_type_mapping (dataset_at h self) !! f = Some tf /\
    field_type_mapping (dataset_at h1 child) !! g = Some tg /\
    _data (dataset_at h2 grandchild)
    = filter (fun l => selects h tg g w l = true /\ selects h tf f v l = true)
             (_data (dataset_at h self)).
Proof.
  intros (tf & Hf & Hrun1)%filter_by_value_selected
         (tg & Hg & Hrun2)%filter_by_value_selected.
  exists tf, tg. split; [done|]. split; [done|].
  apply filtered_new_dataset in Hrun1 as (_ & Hrec & Hdata1 & _).
  apply filtered_new_dataset in Hrun2 as (_ & _ & Hdata2 & _).
  rewrite Hdata2, Hdata1, <- list_filter_filter.
  apply list_filter_iff. intros l. by rewrite (selects_ext h h1).
Qed.

(** Two filters, one after the other, select exactly the records of the
    first dataset that pass both tests, in their order; the second test is
    made with the type that the field has in the intermediate dataset. *)
Theorem filter_by_value_compose
    (h h1 h2 : heap) (self child grandchild : loc)
    (f g : string) (v w : json) :
  filter_by_value self f v h = (inr child, h1) ->
  filter_by_value child g w h1 = (inr grandchild, h2) ->
  exists tf tg,
    field_type_mapping (dataset_at h self) !! f = Some tf /\
    field_type_mapping (dataset_at h1 child) !! g = Some tg /\
    _data (dataset_at h2 grandchild)
    = filter (fun l => selects h tg g w l = true /\ selects h tf f v l = true)
             (_data (dataset_at h self)).
Proof. apply two_filters_selected. Qed.

Lemma filter_by_value_compose_witness :
  let h1 := snd (filter_by_value 0%nat "age" (JInt 26) skills_heap) in
  let h2 := snd (filter_by_value 1%nat "skills" (JStr "sql") h1) in
  exists tf tg,
    field_type_mapping (dataset_at skills_heap 0%nat) !! "age" = Some tf /\
    field_type_mapping (dataset_at h1 1%nat) !! "skills" = Some tg /\
    _data (dataset_at h2 2%nat)
    = filter (fun l => selects skills_heap tg "skills" (JStr "sql") l = true /\
                       selects skills_heap tf "age" (JInt 26) l = true)
             (_data (dataset_at skills_heap 0%nat)).
Proof.
  intros h1 h2.
  apply (filter_by_value_compose skills_heap h1 h2 0%nat 1%nat 2%nat
           "age" "skills" (JInt 26) (JStr "sql")).
  - vm_compute. reflexivity.
  - vm_compute. reflexivity.
Defined.

(** Filters commute.  On a dataset whose stored values for the two fields
    have the types inferred for them (or are null), filtering on the first
    field and then on the second returns the same records, in the same
    order, as filtering on the second and then on the first, whenever all
    four filters return. *)
Theorem filter_by_value_commute
    (h h1 h2 h1' h2' : heap) (self c1 g1 c2 g2 : loc)
    (f g : string) (v w : json) :
  consistent h self f ->
  consistent h self g ->
  filter_by_value self f v h = (inr c1, h1) ->
  filter_by_value c1 g w h1 = (inr g1, h2) ->
  filter_by_value self g w h = (inr c2, h1') ->
  filter_by_value c2 f v h1' = (inr g2, h2') ->
  _data (dataset_at h2 g1) = _data (dataset_at h2' g2).
Proof.
  intros Hcf Hcg Hf1 Hg1 Hg2 Hf2.
  pose proof Hf1 as (tf & Htf & Hrun1)%filter_by_value_selected.
  pose proof Hg2 as (tg & Htg & Hrun2)%filter_by_value_selected.
  destruct (two_filters_selected _ _ _ _ _ _ _ _ _ _ Hf1 Hg1)
    as (tf1 & tg1 & Htf1 & Htg1 & ->).
  destruct (two_filters_selected _ _ _ _ _ _ _ _ _ _ Hg2 Hf2)
    as (tg2 & tf2 & Htg2 & Htf2 & ->).
  assert (tf1 = tf) as -> by congruence.
  assert (tg2 = tg) as -> by congruence.
  assert (tg1 = tg) as ->.
  { refine (filtered_child_type h h1 self c1 _ g tg tg1 Hrun1 _ Hcg Htg Htg1).
    intros l Hl. by apply list_elem_of_filter in Hl as [_ ?]. }
  assert (tf2 = tf) as ->.
  { refine (filtered_child_type h h1' self c2 _ f tf tf2 Hrun2 _ Hcf Htf Htf2).
    intros l Hl. by apply list_elem_of_filter in Hl as [_ ?]. }
  apply list_filter_iff. intros l. tauto.
Qed.

Lemma skills_heap_consistent (k : string) (t0 : pytype) :
  field_type_mapping (dataset_at skills_heap 0%nat) !! k = Some t0 ->
  (forall l, l ∈ [0; 1; 2]%nat ->
             type_of (get (record_at skills_heap l) k) = t0) ->
  consistent skills_heap 0%nat k.
Proof.
  intros Hty Hall t l Ht Hl. left.
  assert (t = t0) as -> by congruence. by apply Hall.
Qed.

Lemma filter_by_value_commute_witness :
  let h1 := snd (filter_by_value 0%nat "age" (JInt 26) skills_heap) in
  let h2 := snd (filter_by_value 1%nat "skills" (JStr "sql") h1) in
  let h1' := snd (filter_by_value 0%nat "skills" (JStr "sql") skills_heap) in
  let h2' := snd (filter_by_value 1%nat "age" (JInt 26) h1') in
  _data (dataset_at h2 2%nat) = _data (dataset_at h2' 2%nat).
Proof.
  intros h1 h2 h1' h2'.
  apply (filter_by_value_commute skills_heap h1 h2 h1' h2' 0%nat 1%nat 2%nat
           1%nat 2%nat "age" "skills" (JInt 26) (JStr "sql")).
  - apply (skills_heap_consistent "age" int_t); [by vm_compute|].
    intros l Hl.
    repeat (apply elem_of_cons in Hl as [-> | Hl]; [by vm_compute|]).
    by apply elem_of_nil in Hl.
  - apply (skills_heap_consistent "skills" list_t); [by vm_compute|].
    intros l Hl.
    repeat (apply elem_of_cons in Hl as [-> | Hl]; [by vm_compute|]).
    by apply elem_of_nil in Hl.
  - vm_compute. reflexivity.
  - vm_compute. reflexivity.
  - vm_compute. reflexivity.
  - vm_compute. reflexivity.
Defined.

(** ** Reading again *)

Lemma dict_get_app_other {V : Type} (d : list (string * V)) (k0 k : string)
    (x : V) :
  k <> k0 -> dict_get (d ++ [(k0, x)]) k = dict_get d k.
Proof.
  intros Hne. induction d as [|[k' v'] d IH].
  - cbn [app]. rewrite dict_get_cons.
    destruct (String.eqb k0 k) eqn:E; [|done].
    apply String.eqb_eq in E. congruence.
  - cbn [app]. rewrite !dict_get_cons. by rewrite IH.
Qed.

Lemma only_attaches_get (h h' : heap) (l : loc) (k : string) :
  only_attaches h h' -> k <> "_foreign_fields" ->
  get (record_at h' l) k = get (record_at h l) k.
Proof.
  intros (_ & _ & _ & Hrec) Hk.
  destruct (Hrec l) as [-> | (_ & g & ->)]; [done|].
  unfold get. by rewrite dict_get_app_other.
Qed.

Lemma only_attaches_dataset (h h' : heap) (d : loc) :
  only_attaches h h' -> dataset_at h' d = dataset_at h d.
Proof. intros (Hd & _). unfold dataset_at. by rewrite Hd. Qed.

Lemma only_attaches_relations (h h' : heap) (rl : loc) :
  only_attaches h h' -> relations_at h' rl = relations_at h rl.
Proof. intros (_ & Hr & _). unfold relations_at. by rewrite Hr. Qed.

Lemma foreign_matches_stable (h h' : heap) (r : record)
    (relation : DataSetRelation) :
  only_attaches h h' ->
  foreign_field relation <> "_foreign_fields" ->
  foreign_matches h' r relation = foreign_matches h r relation.
Proof.
  intros Ha Hff. unfold foreign_matches.
  rewrite (only_attaches_dataset h h') by done.
  apply list_filter_iff. intros t.
  by rewrite (only_attaches_get h h') by done.
Qed.

Lemma resolve_last_matches (h : heap) (r : record)
    (rels : list DataSetRelation) :
  snd (resolve h r rels)
  = match last rels with
    | Some relation => foreign_matches h r relation
    | None => []
    end.
Proof.
  destruct (last rels) as [relation|] eqn:Hlast.
  - by apply resolve_fold_last.
  - apply last_None in Hlast as ->. done.
Qed.

Lemma settled_stable (h h' : heap) (self l : loc) :
  only_attaches h h' ->
  joins_on_own_fields h self ->
  settled h self l -> settled h' self l.
Proof.
  intros Ha Hjoin Hs. pose proof Ha as (_ & _ & Hlen & Hrec).
  unfold settled.
  rewrite (only_attaches_dataset h h'), (only_attaches_relations h h') by done.
  destruct Hs as [Hkey | [Hres | Hnone]].
  - left. destruct (Hrec l) as [-> | (Hno & _)]; congruence.
  - destruct (Hrec l) as [-> | (_ & g & ->)].
    + right. left. rewrite resolve_last_matches in Hres |- *.
      destruct (last _) as [relation|] eqn:Hlast; [|done].
      rewrite (foreign_matches_stable h h'); [done | done |].
      apply Hjoin. apply last_Some in Hlast as [pre ->].
      apply elem_of_app. right. apply list_elem_of_here.
    + left. apply has_key_app_same.
  - right. right. apply lookup_ge_None. apply lookup_ge_None in Hnone. lia.
Qed.

Lemma settled_unchanged (h : heap) (self l : loc) :
  settled h self l ->
  _update_record_with_foreign_data self l h = (inr l, h).
Proof.
  unfold settled, _update_record_with_foreign_data, bind, reading. cbn.
  intros [Hkey | [Hres | Hnone]].
  - by rewrite Hkey.
  - destruct (has_key (record_at h l) "_foreign_fields"); [done|]. cbn.
    destruct (relations_at h (_dataset_relations (dataset_at h self)))
      as [|rel rels]; [done|].
    by rewrite Hres.
  - destruct (has_key (record_at h l) "_foreign_fields"); [done|]. cbn.
    destruct (relations_at h (_dataset_relations (dataset_at h self)))
      as [|rel rels]; [done|].
    destruct (snd _); [done|].
    unfold set_record, modify, bind, ret. cbn.
    rewrite list_insert_ge by (by apply lookup_ge_None).
    by destruct h.
Qed.

Lemma update_settles (h h' : heap) (self l : loc) :
  _update_record_with_foreign_data self l h = (inr l, h') ->
  settled h' self l.
Proof.
  unfold _update_record_with_foreign_data, bind, reading. cbn.
  destruct (has_key (record_at h l) "_foreign_fields") eqn:Hkey; cbn.
  { intros [= <-]. by left. }
  destruct (relations_at h (_dataset_relations (dataset_at h self)))
    as [|rel rels] eqn:Hrels.
  { intros [= <-]. right. left. by rewrite Hrels. }
  destruct (snd (resolve h (record_at h l) (rel :: rels))) as [|t ts] eqn:Hres.
  { intros [= <-]. right. left. by rewrite Hrels. }
  unfold set_record, modify, bind, ret. cbn. intros [= <-].
  destruct (records h !! l) as [r|] eqn:Hl.
  - left. rewrite record_at_set_eq by (by eapply lookup_lt_Some).
    rewrite dict_set_absent by done. apply has_key_app_same.
  - right. right. cbn.
    rewrite list_insert_ge by (by apply lookup_ge_None). done.
Qed.

Lemma joins_on_own_fields_stable (h h' : heap) (self : loc) :
  only_attaches h h' ->
  joins_on_own_fields h self -> joins_on_own_fields h' self.
Proof.
  intros Ha Hj relation.
  rewrite (only_attaches_dataset h h'), (only_attaches_relations h h') by done.
  apply Hj.
Qed.

Lemma for_each_update_settles (self : loc) (ls : list loc) (h h1 : heap) :
  joins_on_own_fields h self ->
  for_each (_update_record_with_foreign_data self) ls h = (inr ls, h1) ->
  forall l, l ∈ ls -> settled h1 self l.
Proof.
  revert h. induction ls as [|l0 ls IH]; intros h Hj Hrun l Hl.
  { by apply elem_of_nil in Hl. }
  cbn in Hrun. unfold bind in Hrun.
  destruct (update_record_attaches h self l0) as (ha & Hup & Ha).
  rewrite Hup in Hrun.
  destruct (for_each_update_attaches self ls ha) as (hb & Hrest & Hb).
  rewrite Hrest in Hrun. cbn in Hrun. injection Hrun as <-.
  pose proof (joins_on_own_fields_stable _ _ _ Ha Hj) as Hja.
  apply elem_of_cons in Hl as [-> | Hl].
  - apply (settled_stable ha hb); [done | done |].
    by eapply update_settles.
  - by apply (IH ha).
Qed.

Lemma for_each_settled (self : loc) (ls : list loc) (h : heap) :
  (forall l, l ∈ ls -> settled h self l) ->
  for_each (_update_record_with_foreign_data self) ls h = (inr ls, h).
Proof.
  induction ls as [|l ls IH]; intros Hall; [done|].
  cbn. unfold bind.
  rewrite settled_unchanged by apply Hall, list_elem_of_here.
  rewrite IH; [done|]. intros l' Hl'. by apply Hall, list_elem_of_further.
Qed.

(** Resolving is idempotent.  When no relation of the dataset joins on the
    reserved field of its target, a second read returns the same records as
    the first and leaves the store exactly as the first read left it. *)
Theorem data_twice (h h1 : heap) (self : loc) (ls : list loc) :
  joins_on_own_fields h self ->
  data self h = (inr ls, h1) ->
  data self h1 = (inr ls, h1).
Proof.
  intros Hj Hrun.
  unfold data, bind, reading in Hrun |- *. cbn in Hrun |- *.
  destruct (for_each_update_attaches self (_data (dataset_at h self)) h)
    as (h' & Hfor & Ha).
  rewrite Hfor in Hrun. injection Hrun as <- <-.
  rewrite (only_attaches_dataset h h') by done.
  rewrite for_each_settled; [done|].
  by apply (for_each_update_settles self _ h).
Qed.

Lemma data_twice_witness :
  let h1 := snd (data 0%nat staff_related_heap) in
  data 0%nat h1 = (inr [0; 1; 2; 3]%nat, h1).
Proof.
  intros h1. apply (data_twice staff_related_heap); [|by vm_compute].
  intros relation Hrel. vm_compute in Hrel.
  apply list_elem_of_singleton in Hrel as ->. discriminate.
Defined.

(** ** The empty dataset *)

(** An empty list of records is accepted by the constructor.  The dataset
    has no record and no field, so that every filter on it raises
    [KeyError], whatever the field and the value; reading it returns no
    record and changes nothing. *)
Theorem empty_dataset
    (h : heap) (nm : string) (json_path _parsed_data : option pyobj) :
  source json_path _parsed_data = Some (OList []) ->
  exists d h',
    __init__ nm json_path _parsed_data h = (inr d, h') /\
    __len__ h' d = 0%nat /\
    fields (dataset_at h' d) = [] /\
    (forall field value,
       filter_by_value d field value h' = (inl KeyError, h')) /\
    data d h' = (inr [], h').
Proof.
  intros Hsrc.
  pose proof (init_records h nm json_path _parsed_data [] Hsrc) as Hrun.
  change (sorted (all_keys h [])) with (@nil string) in Hrun.
  rewrite andb_false_r in Hrun.
  change (_validate_data_types h [] [])
    with (@inr exn _ (∅ : gmap string pytype, ∅ : gmap string pytype))
    in Hrun.
  set (h' := mkHeap (records h) (relation_lists h ++ [[]])
                    (datasets h ++ [built_dataset h nm [] (∅, ∅)])) in Hrun.
  assert (dataset_at h' (length (datasets h)) = built_dataset h nm [] (∅, ∅))
    as Hd by apply dataset_at_app_new.
  exists (length (datasets h)), h'. split; [exact Hrun|].
  unfold __len__. rewrite Hd.
  split; [done|]. split; [done|]. split.
  - intros field value. apply filter_by_value_unknown_field.
    rewrite Hd. apply lookup_empty.
  - unfold data, bind, reading. cbn [fst snd]. by rewrite Hd.
Qed.

Lemma empty_dataset_witness :
  exists d h',
    __init__ "People" None (Some (OList [])) people_heap = (inr d, h') /\
    __len__ h' d = 0%nat.
Proof.
  destruct (empty_dataset people_heap "People" None (Some (OList [])))
    as (d & h' & Hrun & Hlen & _).
  - reflexivity.
  - exists d, h'. split; [exact Hrun | exact Hlen].
Defined.

(** ** More on the resolver *)

Lemma value_eq_null_l (x : pyval) :
  value_eq (Plain JNone) x
  = match x with Plain JNone => true | _ => false end.
Proof. by destruct x as [[]|]. Qed.

(** A record whose local field is absent or null is matched with exactly
    the target records whose foreign field is absent or null, since both
    read as [None] and [None == None]. *)
Theorem null_local_field_matches
    (h : heap) (r : record) (relation : DataSetRelation) :
  absent_or_null r (field relation) = true ->
  foreign_matches h r relation
  = filter (fun t => absent_or_null (record_at h t) (foreign_field relation)
                     = true)
           (_data (dataset_at h (foreign_data_set relation))).
Proof.
  intros Hnull. unfold foreign_matches. apply list_filter_iff. intros t.
  assert (get r (field relation) = Plain JNone) as ->.
  { unfold absent_or_null in Hnull. unfold get.
    by destruct (dict_get r (field relation)) as [[[]|]|]. }
  rewrite value_eq_null_l. unfold get, absent_or_null.
  by destruct (dict_get (record_at h t) (foreign_field relation)) as [[[]|]|].
Qed.

Lemma null_local_field_matches_witness :
  foreign_matches staff_heap (record_at staff_heap 3%nat)
                  (mkRelation 1%nat "position_id" "grade")
  = filter (fun t => absent_or_null (record_at staff_heap t) "grade" = true)
           (_data (dataset_at staff_heap 1%nat)).
Proof.
  apply (null_local_field_matches staff_heap (record_at staff_heap 3%nat)
           (mkRelation 1%nat "position_id" "grade")).
  vm_compute. reflexivity.
Defined.

Lemma extend_get (g : list (string * list loc)) (nm nm' : string)
    (rs : list loc) :
  dict_get (extend g nm rs) nm'
  = if decide (nm = nm') then Some (default [] (dict_get g nm) ++ rs)
    else dict_get g nm'.
Proof.
  unfold extend. destruct (decide (nm = nm')) as [<- | Hne].
  - apply dict_get_set_eq.
  - by apply dict_get_set_ne.
Qed.

(** the groups that the loop over the relations builds, name by name: no
    group is empty, and the group of a name is made of the matches of the
    relations filed under that name *)
Lemma resolve_groups (h : heap) (r : record) (rels : list DataSetRelation)
    (st : list (string * list loc) * list loc) (nm : string) :
  dict_get (fst st) nm <> Some [] ->
  let g := fst (fold_left (resolve_step h r) rels st) in
  dict_get g nm <> Some [] /\
  default [] (dict_get g nm)
  = default [] (dict_get (fst st) nm) ++ matches_under h r rels nm.
Proof.
  revert st. induction rels as [|rel rels IH]; intros st Hst.
  { cbn. split; [done|]. unfold matches_under. cbn. by rewrite app_nil_r. }
  simpl fold_left.
  destruct (IH (resolve_step h r st rel)) as [Hne Heq].
  { unfold resolve_step. cbn [fst].
    destruct (foreign_matches h r rel) as [|m ms] eqn:Hm; [done|].
    change (name (dataset_at h (foreign_data_set rel)))
      with (target_name h rel).
    rewrite extend_get. case_decide; [|done].
    by destruct (default [] (dict_get st.1 (target_name h rel))). }
  split; [done|]. rewrite Heq. clear IH Hne Heq.
  unfold matches_under. rewrite filter_cons.
  unfold resolve_step. cbn [fst].
  change (name (dataset_at h (foreign_data_set rel)))
    with (target_name h rel).
  destruct (decide (target_name h rel = nm)) as [Hnm | Hnm].
  - cbn [map concat]. rewrite app_assoc. f_equal.
    destruct (foreign_matches h r rel) as [|m ms] eqn:Hm.
    + by rewrite app_nil_r.
    + rewrite extend_get, decide_True by done. cbn [default].
      by rewrite Hnm.
  - f_equal. destruct (foreign_matches h r rel) as [|m ms] eqn:Hm; [done|].
    by rewrite extend_get, decide_False.
Qed.

(** When the resolver attaches the side-channel, and what it puts in it.
    For a record of the store, the reserved field is on the record after
    the call exactly when it was there before, or the relation declared
    last has a match for the record.  When it is newly attached, the entry
    under any name consists of the matches of all relations filed under that
    name, in the order of the relations, and there is no entry for a name
    without matches. *)
Theorem side_channel_attached
    (h h' : heap) (self l : loc) :
  let r := record_at h l in
  let rels := relations_at h (_dataset_relations (dataset_at h self)) in
  is_Some (records h !! l) ->
  _update_record_with_foreign_data self l h = (inr l, h') ->
  (has_key (record_at h' l) "_foreign_fields" = true <->
   has_key r "_foreign_fields" = true \/
   exists relation, last rels = Some relation /\
                    foreign_matches h r relation <> []) /\
  (has_key r "_foreign_fields" = false ->
   has_key (record_at h' l) "_foreign_fields" = true ->
   forall nm,
     foreign_entry (record_at h' l) nm
     = match matches_under h r rels nm with
       | [] => None
       | ms => Some ms
       end).
Proof.
  intros r rels Hl.
  remember (matches_under h r rels) as mu eqn:Hmu.
  unfold _update_record_with_foreign_data, bind, reading. cbn.
  fold r. fold rels.
  destruct (has_key r "_foreign_fields") eqn:Hkey; cbn.
  { intros [= <-]. fold r. rewrite Hkey. split; [|done]. split; eauto. }
  pose proof (resolve_last_matches h r rels) as Hlast.
  destruct rels as [|rel0 rels0] eqn:Hrels.
  { intros [= <-]. fold r. rewrite Hkey. split.
    - split; [done|]. by intros [? | (? & ? & _)].
    - done. }
  change (fold_left (resolve_step h r) rels0 (resolve_step h r ([], []) rel0))
    with (resolve h r (rel0 :: rels0)).
  destruct (last (rel0 :: rels0)) as [relation|] eqn:Hlast_rel.
  2:{ by apply last_None in Hlast_rel. }
  destruct (snd (resolve h r (rel0 :: rels0))) as [|m ms] eqn:Hres.
  - intros [= <-]. fold r. rewrite Hkey. split; [|done].
    split; [done|]. intros [? | (rel' & [= <-] & Hne)]; [done|].
    by rewrite <- Hlast in Hne.
  - unfold set_record, modify, bind, ret. cbn. intros [= <-].
    rewrite record_at_set_eq by (destruct Hl; by eapply lookup_lt_Some).
    rewrite dict_set_absent by done. split.
    + split; [|intros _; apply has_key_app_same].
      intros _. right. exists relation. split; [done|]. by rewrite <- Hlast.
    + intros _ _ nm. unfold foreign_entry.
      rewrite <- (dict_set_absent r) by done. rewrite dict_get_set_eq.
      set (g := fst (resolve h r (rel0 :: rels0))).
      destruct (resolve_groups h r (rel0 :: rels0) ([], []) nm)
        as [Hne Heq]; [done|].
      change (fst (fold_left (resolve_step h r) (rel0 :: rels0) ([], [])))
        with g in Hne, Heq.
      change (default [] (dict_get (fst ([], [])) nm)) with (@nil loc) in Heq.
      rewrite app_nil_l in Heq.
      change (fst (fold_left (resolve_step h r) rels0
                     (resolve_step h r ([], []) rel0))) with g.
      rewrite Hmu, ?Hrels, <- Heq.
      destruct (dict_get g nm) as [[|x xs]|]; [by destruct Hne | done | done].
Qed.

Lemma side_channel_attached_witness :
  let h' := snd (_update_record_with_foreign_data 0%nat 0%nat
                   positions_then_teams) in
  has_key (record_at h' 0%nat) "_foreign_fields" = true <->
  has_key (record_at positions_then_teams 0%nat) "_foreign_fields" = true \/
  exists relation,
    last (relations_at positions_then_teams
            (_dataset_relations (dataset_at positions_then_teams 0%nat)))
    = Some relation /\
    foreign_matches positions_then_teams
                    (record_at positions_then_teams 0%nat) relation <> [].
Proof.
  intros h'.
  refine (proj1 (side_channel_attached positions_then_teams h' 0%nat 0%nat
                   _ _)).
  - vm_compute. eauto.
  - vm_compute. reflexivity.
Defined.

(** ** The store stays well formed *)

Lemma target_name_extended (h : heap) (rs : list record)
    (rls : list (list DataSetRelation)) (ds : DataSet)
    (relation : DataSetRelation) :
  is_Some (datasets h !! foreign_data_set relation) ->
  target_name (mkHeap rs rls (datasets h ++ [ds])) relation
  = target_name h relation.
Proof.
  intros [d Hd]. unfold target_name, dataset_at. cbn.
  by rewrite (lookup_app_l_Some _ _ _ _ Hd), Hd.
Qed.

Lemma well_formed_extended (h : heap) (rs : list record) (ds : DataSet) :
  well_formed h ->
  is_Some ((relation_lists h ++ [[]]) !! _dataset_relations ds) ->
  well_formed (mkHeap rs (relation_lists h ++ [[]]) (datasets h ++ [ds])).
Proof.
  intros (Hrl & Htarget & Hnames) Hnew. split; [|split]; cbn.
  - intros d ds' [Hd | [_ Hlast]]%lookup_app_Some.
    + destruct (Hrl d ds' Hd) as [x Hx]. exists x. by apply lookup_app_l_Some.
    + by apply list_lookup_singleton_Some in Hlast as [_ <-].
  - intros rl rs' relation [Hold | [_ Hlast]]%lookup_app_Some Hin.
    + destruct (Htarget rl rs' relation Hold Hin) as [x Hx].
      exists x. by apply lookup_app_l_Some.
    + apply list_lookup_singleton_Some in Hlast as [_ <-].
      by apply elem_of_nil in Hin.
  - intros rl rs' [Hold | [_ Hlast]]%lookup_app_Some.
    + erewrite map_ext_in; [by eapply Hnames|].
      intros relation Hin%list_elem_of_In. cbn.
      apply target_name_extended. by eapply Htarget.
    + apply list_lookup_singleton_Some in Hlast as [_ <-]. apply NoDup_nil_2.
Qed.

Lemma relate_dataset_checked
    (h h' : heap) (self other : loc) (fa fb : string) :
  relate_dataset self other fa fb h = (inr tt, h') ->
  forall relation,
    relation ∈ relations_at h (_dataset_relations (dataset_at h self)) ->
    target_name h relation <> name (dataset_at h other).
Proof.
  unfold relate_dataset, bind, reading. cbn.
  destruct (existsb _ _) eqn:Hex; [done|].
  intros _ relation Hin Heq.
  assert (existsb
            (fun relation =>
               String.eqb (name (dataset_at h (foreign_data_set relation)))
                          (name (dataset_at h other)))
            (relations_at h (_dataset_relations (dataset_at h self))) = true)
    as Htrue.
  { apply existsb_name_true. eauto. }
  congruence.
Qed.

Lemma well_formed_related
    (h h' : heap) (self other : loc) (fa fb : string) :
  well_formed h ->
  is_Some (datasets h !! other) ->
  relate_dataset self other fa fb h = (inr tt, h') ->
  well_formed h'.
Proof.
  intros (Hrl & Htarget & Hnames) Hother Hrun.
  pose proof (relate_dataset_checked _ _ _ _ _ _ Hrun) as Hfresh.
  apply relate_dataset_success in Hrun. cbn in Hrun.
  set (rl := _dataset_relations (dataset_at h self)) in *.
  subst h'. split; [|split]; cbn.
  - intros d ds Hd. destruct (Hrl d ds Hd) as [x Hx%lookup_lt_Some].
    apply lookup_lt_is_Some. by rewrite length_insert.
  - intros rl' rs relation Hlook Hin.
    destruct (decide (rl = rl')) as [<- | Hne].
    + apply list_lookup_insert_Some in Hlook as [(_ & <- & _) | [? _]];
        [|done].
      apply elem_of_app in Hin as [Hin | ->%list_elem_of_singleton]; [|done].
      unfold relations_at in Hin.
      destruct (relation_lists h !! rl) as [old|] eqn:Hold;
        [by eapply Htarget | by apply elem_of_nil in Hin].
    + rewrite list_lookup_insert_ne in Hlook by done. by eapply Htarget.
  - intros rl' rs Hlook.
    change (map (target_name _) rs) with (map (target_name h) rs).
    destruct (decide (rl = rl')) as [<- | Hne].
    + apply list_lookup_insert_Some in Hlook as [(_ & <- & _) | [? _]];
        [|done].
      rewrite map_app. apply NoDup_app. split; [|split].
      * unfold relations_at.
        destruct (relation_lists h !! rl) as [old|] eqn:Hold;
          [by eapply Hnames | apply NoDup_nil_2].
      * intros nm Hin1 Hin2.
        apply list_elem_of_fmap in Hin1 as (relation & Heq & Hin).
        apply list_elem_of_singleton in Hin2.
        apply (Hfresh relation Hin). by rewrite <- Heq, Hin2.
      * apply NoDup_singleton.
    + rewrite list_lookup_insert_ne in Hlook by done. by eapply Hnames.
Qed.

Lemma well_formed_attached (h h' : heap) :
  well_formed h -> only_attaches h h' -> well_formed h'.
Proof.
  intros (Hrl & Htarget & Hnames) (Hd & Hr & _).
  unfold well_formed. rewrite Hd, Hr. split; [done|]. split; [done|].
  intros rl rs Hlook. erewrite map_ext; [by eapply Hnames|].
  intros relation. unfold target_name, dataset_at. by rewrite Hd.
Qed.

(** The store invariant: every dataset has its relation list, every
    relation points to a dataset, and no relation list has two relations
    whose targets have the same name.  It holds in a store without datasets
    and is kept by every operation: by a construction or a filter that
    returns, by the declaration of a relation to an existing dataset, and
    by a read. *)
Theorem well_formed_kept :
  (forall rs, well_formed (mkHeap rs [] [])) /\
  (forall h h' nm json_path _parsed_data d,
     well_formed h ->
     __init__ nm json_path _parsed_data h = (inr d, h') ->
     well_formed h') /\
  (forall h h' self field value child,
     well_formed h ->
     filter_by_value self field value h = (inr child, h') ->
     well_formed h') /\
  (forall h h' self other fa fb,
     well_formed h ->
     is_Some (datasets h !! other) ->
     relate_dataset self other fa fb h = (inr tt, h') ->
     well_formed h') /\
  (forall h h' self ls,
     well_formed h ->
     data self h = (inr ls, h') ->
     well_formed h').
Proof.
  split; [|split; [|split; [|split]]].
  - intros rs. split; [|split]; cbn; intros *; by rewrite lookup_nil.
  - intros h h' nm jp pd d Hwf
      (ls & m & _ & _ & _ & -> & ->)%init_success_shape.
    apply well_formed_extended; [done|]. cbn.
    rewrite lookup_app_r by done. rewrite Nat.sub_diag. by eexists.
  - intros h h' self field value child Hwf Hrun.
    pose proof Hrun as (t & Hty & _)%filter_by_value_selected.
    apply filter_by_value_success in Hrun
      as (ls & m & _ & _ & _ & _ & Hrec & Hrls & Hds).
    destruct h' as [rs' rls' ds']. cbn in Hrec, Hrls, Hds. subst.
    apply well_formed_extended; [done|]. cbn.
    unfold dataset_at in Hty |- *.
    destruct (datasets h !! self) as [ds|] eqn:Hds.
    2:{ cbn in Hty. by rewrite lookup_empty in Hty. }
    cbn. destruct Hwf as (Hrl & _). destruct (Hrl self ds Hds) as [x Hx].
    exists x. by apply lookup_app_l_Some.
  - intros h h' self other fa fb. apply well_formed_related.
  - intros h h' self ls Hwf Hrun.
    unfold data, bind, reading in Hrun. cbn in Hrun.
    destruct (for_each_update_attaches self (_data (dataset_at h self)) h)
      as (h1 & Hfor & Ha).
    rewrite Hfor in Hrun. injection Hrun as _ <-.
    by eapply well_formed_attached.
Qed.

(** ** The client's dict of datasets by name *)

Lemma name_mapping_snoc (h : heap) (dss : list loc) (d : loc) :
  CLIClient.name_mapping h (dss ++ [d])
  = <[name (dataset_at h d) := d]> (CLIClient.name_mapping h dss).
Proof. unfold CLIClient.name_mapping. by rewrite fold_left_app. Qed.

(** The client finds a dataset by name through a dict that is filled in the
    order of the list it was given.  Under a name it holds the last dataset
    of the list that bears this name: a dataset is found under its name
    exactly when no dataset after it in the list has the same name. *)
Theorem name_mapping_last_wins
    (h : heap) (dss : list loc) (nm : string) (d : loc) :
  CLIClient.data_set_name_mapping (CLIClient.__init__ h dss) !! nm = Some d
  <->
  exists pre post,
    dss = pre ++ d :: post /\
    name (dataset_at h d) = nm /\
    forall d', d' ∈ post -> name (dataset_at h d') <> nm.
Proof.
  unfold CLIClient.__init__, CLIClient.data_set_name_mapping.
  induction dss as [|x dss IH] using rev_ind.
  { change (CLIClient.name_mapping h []) with (∅ : gmap string loc).
    split; [by rewrite lookup_empty|].
    intros (pre & post & Heq & _). by destruct pre. }
  rewrite name_mapping_snoc.
  destruct (decide (name (dataset_at h x) = nm)) as [Hx | Hx].
  - rewrite Hx, lookup_insert_eq. split.
    + intros [= <-]. exists dss, []. split; [done|]. split; [done|].
      by intros d' ?%elem_of_nil.
    + intros (pre & post & Heq & Hd & Hpost).
      destruct post as [|p post _] using rev_ind.
      * apply app_inj_tail in Heq as [_ ->]. done.
      * rewrite app_comm_cons, app_assoc in Heq.
        apply app_inj_tail in Heq as [_ ->].
        destruct (Hpost p); [|done].
        apply elem_of_app. right. apply list_elem_of_here.
  - rewrite lookup_insert_ne by done. rewrite IH. split.
    + intros (pre & post & -> & Hd & Hpost).
      exists pre, (post ++ [x]). split; [by rewrite <- app_assoc|].
      split; [done|].
      intros d' [Hd' | ->%list_elem_of_singleton]%elem_of_app; [|done].
      by apply Hpost.
    + intros (pre & post & Heq & Hd & Hpost).
      destruct post as [|p post _] using rev_ind.
      * apply app_inj_tail in Heq as [_ ->]. done.
      * rewrite app_comm_cons, app_assoc in Heq.
        apply app_inj_tail in Heq as [-> ->].
        exists pre, post. split; [done|]. split; [done|].
        intros d' Hd'. apply Hpost. apply elem_of_app. by left.
Qed.

(** ** Every outcome of the constructor *)

(** The constructor ends in one of four ways, and the data decides which.
    It raises [DataLoadException] exactly when both sources or none are
    given, or the data is not a list, or the data is a list of mappings and
    either the reserved field is a key of raw input or the first field, in
    sorted order, that validation does not accept is rejected (no value at
    all, values of several types, object values, or lists whose elements
    are not of exactly one type).  It raises [AttributeError] exactly when
    the data is a list with an element that is not a mapping, and
    [KeyError] or [TypeError] exactly when the data is a list of mappings,
    without the reserved field in raw input, and the first field that is
    not accepted is a list field for which some record holds no list.  It
    never raises [DataSetException]; whenever it raises, the store is
    unchanged.  It returns exactly when the data is a list of mappings,
    without the reserved field in raw input, all of whose fields are
    accepted; the dataset then has the given name and records, a fresh
    empty list of relations, as fields the keys of all records, sorted and
    without repetition, and as type of each field the one type of its
    values. *)
Theorem init_outcomes
    (h : heap) (nm : string) (json_path _parsed_data : option pyobj) :
  let out := __init__ nm json_path _parsed_data h in
  (fst out = inl DataLoadException <->
   match source json_path _parsed_data with
   | None => True
   | Some o =>
       not_a_list o \/
       exists ls, list_of_records o ls /\
                  (reserved_in_raw h json_path ls \/
                   first_failure_rejected h ls)
   end) /\
  (fst out = inl AttributeError <->
   exists o, source json_path _parsed_data = Some o /\ list_with_other o) /\
  (fst out = inl KeyError \/ fst out = inl TypeError <->
   exists ls,
     source json_path _parsed_data = Some (OList (map ORecord ls)) /\
     ~ reserved_in_raw h json_path ls /\
     first_failure_incomplete h ls) /\
  fst out <> inl DataSetException /\
  (forall e, fst out = inl e -> snd out = h) /\
  (forall ls,
     source json_path _parsed_data = Some (OList (map ORecord ls)) ->
     ~ reserved_in_raw h json_path ls ->
     (forall f, f ∈ all_keys h ls -> field_accepted h ls f) ->
     exists d, fst out = inr d) /\
  (forall d,
     fst out = inr d ->
     exists ls,
       source json_path _parsed_data = Some (OList (map ORecord ls)) /\
       ~ reserved_in_raw h json_path ls /\
       (forall f, f ∈ all_keys h ls -> field_accepted h ls f) /\
       let ds := dataset_at (snd out) d in
       name ds = nm /\
       _data ds = ls /\
       relations_at (snd out) (_dataset_relations ds) = [] /\
       Sorted string_le (fields ds) /\
       NoDup (fields ds) /\
       (forall k, k ∈ fields ds <->
                  exists l, l ∈ ls /\ k ∈ keys (record_at h l)) /\
       (forall k t, field_type_mapping ds !! k = Some t ->
                    single_type h ls k t)).
Proof.
  intros out. subst out.
  destruct (source json_path _parsed_data) as [o|] eqn:Hsrc.
  2:{ rewrite (init_without_source h nm _ _ Hsrc). cbn.
      split; [done|].
      split; [split; [done | by intros (o & ? & _)]|].
      split; [split; [by intros [|] | by intros (ls & ? & _)]|].
      split; [done|]. split; [done|]. split; [done|]. done. }
  assert (not_a_list o \/ exists elems, o = OList elems) as [Hnl | [elems ->]].
  { destruct o; try (by left); right; eauto. }
  { rewrite (init_not_a_list h nm _ _ _ Hsrc Hnl). cbn.
    split; [split; [by left | done]|].
    split.
    { split; [done|]. intros (o' & [= <-] & es & -> & _). by destruct (Hnl es). }
    split.
    { split; [by intros [|]|]. intros (ls & [= ->] & _).
      by destruct (Hnl (map ORecord ls)). }
    split; [done|]. split; [done|]. split; [|done].
    intros ls [= ->]. by destruct (Hnl (map ORecord ls)). }
  destruct (collect_keys_cases h elems) as [[ls ->] | (He & x & Hx & Hnx)].
  2:{ rewrite (init_list h nm _ _ _ Hsrc), He. cbn.
      assert (forall ls, elems <> map ORecord ls) as Hnot.
      { intros ls ->. apply records_have_no_other in Hx as [l ->].
        by destruct (Hnx l). }
      split.
      { split; [done|]. intros [Hnl | (ls & Hls & _)].
        - by destruct (Hnl elems).
        - injection Hls as ->. by destruct (Hnot ls). }
      split.
      { split; [|done]. intros _. exists (OList elems). split; [done|].
        exists elems. split; [done|]. eauto. }
      split.
      { split; [by intros [|]|]. intros (ls & [= ->] & _).
        by destruct (Hnot ls). }
      split; [done|]. split; [done|]. split; [|done].
      intros ls [= ->]. by destruct (Hnot ls). }
  assert (~ exists o, Some (OList (map ORecord ls)) = Some o /\
                      list_with_other o) as Hrecs.
  { intros (o & [= <-] & es & [= <-] & y & Hy & Hny).
    apply records_have_no_other in Hy as [l ->]. by destruct (Hny l). }
  rewrite (init_records h nm _ _ ls Hsrc).
  pose proof (reserved_check h json_path ls) as Hres.
  destruct (bool_decide (is_Some json_path)
            && existsb (String.eqb "_foreign_fields") (sorted (all_keys h ls)))
    eqn:Hchk.
  { assert (reserved_in_raw h json_path ls) as Hraw by by apply Hres.
    cbn. split.
    { split; [|done]. intros _. right. exists ls. split; [done | by left]. }
    split; [split; [done | by intros ?%Hrecs]|].
    split.
    { split; [by intros [|]|].
      intros (ls' & [= ->%map_ORecord_inj] & Hnr & _). done. }
    split; [done|]. split; [done|]. split; [|done].
    intros ls' [= ->%map_ORecord_inj]. done. }
  assert (~ reserved_in_raw h json_path ls) as Hraw.
  { intros Hr%Hres. done. }
  pose proof (first_failure_loop h ls) as Hfirst.
  pose proof (first_failure_other h ls) as Hother.
  pose proof (all_accepted_loop h ls) as Hacc.
  destruct (_validate_data_types h ls (sorted (all_keys h ls))) as [e|m] eqn:Hv.
  - cbn. split.
    { split.
      - intros [= ->]. right. exists ls. split; [done|]. right. by apply Hfirst.
      - intros [Hnl | (ls' & Hls & [Hr | Hf])].
        + by destruct (Hnl (map ORecord ls)).
        + injection Hls as ->%map_ORecord_inj. done.
        + injection Hls as ->%map_ORecord_inj.
          apply Hfirst in Hf. by injection Hf as ->. }
    split.
    { split; [|by intros ?%Hrecs]. intros [= ->].
      by destruct (validate_data_types_other_exn _ _ _ _ Hv) as [? | [? | ?]]. }
    split.
    { split.
      - intros Hkt. exists ls. split; [done|]. split; [done|].
        apply Hother. exists e. split; [done|].
        intros ->. by destruct Hkt.
      - intros (ls' & [= ->%map_ORecord_inj] & _ & Hinc).
        apply Hother in Hinc as (e' & [= <-] & Hne).
        destruct (validate_data_types_other_exn _ _ _ _ Hv)
          as [-> | [-> | ->]]; [done | by left | by right]. }
    split.
    { intros [= ->].
      by destruct (validate_data_types_other_exn _ _ _ _ Hv) as [? | [? | ?]]. }
    split; [done|]. split; [|done].
    intros ls' [= ->%map_ORecord_inj] _ Hall.
    apply Hacc in Hall as [m Hm]. done.
  - cbn [fst snd]. split.
    { split; [done|]. intros [Hnl | (ls' & Hls & [Hr | Hf])].
      - by destruct (Hnl (map ORecord ls)).
      - injection Hls as ->%map_ORecord_inj. done.
      - injection Hls as ->%map_ORecord_inj. by apply Hfirst in Hf. }
    split; [split; [done | by intros ?%Hrecs]|].
    split.
    { split; [by intros [|]|].
      intros (ls' & [= ->%map_ORecord_inj] & _ & Hinc).
      by apply Hother in Hinc as (e' & ? & _). }
    split; [done|]. split; [done|]. split; [eauto|].
    intros d [= <-]. exists ls. split; [done|]. split; [done|].
    split; [apply Hacc; eauto|].
    rewrite dataset_at_app_new.
    change (fields (built_dataset h nm ls m)) with (sorted (all_keys h ls)).
    cbn [name _data _dataset_relations built_dataset].
    split; [done|]. split; [done|]. split.
    { unfold relations_at. cbn.
      rewrite lookup_app_r by done. by rewrite Nat.sub_diag. }
    split; [apply sorted_Sorted|]. split; [apply sorted_NoDup|]. split.
    { intros k. by rewrite elem_of_sorted, elem_of_all_keys. }
    intros k t. by apply built_dataset_validated.
Qed.

(** * Relations declared after filtering *)







